(** * Readiness-gated batch ingestion into a vector database

    A shallow embedding of the two scripts of the repository,
    [setup_collection.py] and [weaviate_server.py], together with the
    properties their specification states about them.

    The scripts are orchestration code: every call they make leaves the
    process (HTTP health requests, the collection API of the database
    client, the dataset file, the batch session).  The embedding therefore
    runs the Python control flow (loops, [try]/[except]/[finally],
    [sys.exit], the [with] statement) in a small monad over

    - a [world]: the logical clock, the remote collection store, the open
      client sessions, the batch buffer, the process-wide
      [subprocess.Popen] binding and the variable bindings of the running
      script;
    - an [env]: how the collaborators answer (latency and status of each
      health request, rejected calls, the dataset file, which objects the
      service accepts);
    - a [log] of the calls and prints made, in program order. *)

From stdpp Require Import gmap strings list fin_maps pretty.
From Stdlib Require Import ZArith Lia.

(** ** Python values, exceptions and outcomes *)

(** The values a dataset record can hold under a key. *)
Inductive pyval :=
  | PStr (s : string)
  | PInt (z : Z)
  | PNone.

#[global] Instance pyval_eq_dec : EqDecision pyval.
Proof. solve_decision. Defined.

(** A dataset record and the object sent to the service are both Python
    dicts with string keys. *)
Abbreviation record := (gmap string pyval).
Abbreviation data_object := (gmap string pyval).

(** The exceptions the scripts see.  [SystemExit] is what [sys.exit]
    raises; it derives from [BaseException], so [except Exception] does not
    catch it.  [Exception] stands for every other subclass of Python's
    [Exception] (client, connection and schema errors of the database
    library, unpickling errors, ...). *)
Inductive exn :=
  | FileNotFoundError (msg : string)
  | RequestException (msg : string)
  | Exception (msg : string)
  | SystemExit (code : Z).

Definition is_Exception (e : exn) : bool :=
  match e with SystemExit _ => false | _ => true end.

Definition is_RequestException (e : exn) : bool :=
  match e with RequestException _ => true | _ => false end.

Definition is_FileNotFoundError (e : exn) : bool :=
  match e with FileNotFoundError _ => true | _ => false end.

(** [str(e)], as interpolated by the f-strings. *)
Definition str_exn (e : exn) : string :=
  match e with
  | FileNotFoundError msg | RequestException msg | Exception msg => msg
  | SystemExit code => pretty code
  end.

Inductive outcome (A : Type) :=
  | Ret (a : A)
  | Raise (e : exn).
Arguments Ret {A} a.
Arguments Raise {A} e.

(** ** Schema, store and process state *)

Inductive DataType := TEXT | INT.

Record Property := { prop_name : string; data_type : DataType }.

Record collection := { schema : list Property; objects : list data_object }.

(** The remote store: the collections the service holds, by name. *)
Abbreviation store := (list (string * collection)).

Inductive stream := INHERIT | PIPE | DEVNULL.

(** What a [Popen] call spawns: the command and where its output goes. *)
Record process := { argv : list string; p_stdout : stream; p_stderr : stream }.

(** A callable bound to [subprocess.Popen]: positional and keyword
    arguments in, a spawned process out. *)
Abbreviation popen_fn := (list string -> gmap string stream -> process).

Record world := World {
  clock : Z;                      (* wall-clock time, in milliseconds *)
  requests : nat;                 (* health requests issued so far *)
  collections : store;
  sessions : list nat;            (* client sessions currently open *)
  next_session : nat;
  buffer : list data_object;      (* objects of the batch session not yet flushed *)
  submitted : nat;                (* add_object calls of the batch session *)
  Popen : popen_fn;               (* the binding subprocess.Popen *)
  bindings : gmap string nat      (* names bound to a client handle in the running scope *)
}.

Definition set_clock (t : Z) (w : world) : world :=
  World t (requests w) (collections w) (sessions w) (next_session w)
        (buffer w) (submitted w) (Popen w) (bindings w).
Definition set_requests (k : nat) (w : world) : world :=
  World (clock w) k (collections w) (sessions w) (next_session w)
        (buffer w) (submitted w) (Popen w) (bindings w).
Definition set_collections (st : store) (w : world) : world :=
  World (clock w) (requests w) st (sessions w) (next_session w)
        (buffer w) (submitted w) (Popen w) (bindings w).
Definition set_sessions (hs : list nat) (next : nat) (w : world) : world :=
  World (clock w) (requests w) (collections w) hs next
        (buffer w) (submitted w) (Popen w) (bindings w).
Definition set_batch (buf : list data_object) (k : nat) (w : world) : world :=
  World (clock w) (requests w) (collections w) (sessions w) (next_session w)
        buf k (Popen w) (bindings w).
Definition set_Popen (f : popen_fn) (w : world) : world :=
  World (clock w) (requests w) (collections w) (sessions w) (next_session w)
        (buffer w) (submitted w) f (bindings w).
Definition set_bindings (b : gmap string nat) (w : world) : world :=
  World (clock w) (requests w) (collections w) (sessions w) (next_session w)
        (buffer w) (submitted w) (Popen w) b.

(** The calls that leave the process, and the prints, in program order. *)
Inductive event :=
  | Print (s : string)
  | HttpGet (url : string) (timeout : Z)
  | Sleep (d : Z)
  | Connect (h : nat)
  | Close (h : nat)
  | CollExists (n : string)
  | CollDelete (n : string)
  | CollCreate (n : string) (props : list Property)
  | JoblibLoad (path : string)
  | BatchEnter (n : string)
  | AddObject (o : data_object)
  | BatchExit
  | ProcessExit (code : Z).

(** ** The monad of script code *)

Record result (A : Type) := Result { out : outcome A; final : world; log : list event }.
Arguments Result {A} out final log.
Arguments out {A} r.
Arguments final {A} r.
Arguments log {A} r.

Definition M (A : Type) : Type := world -> result A.

#[global] Instance M_ret : MRet M := fun A a w => Result (Ret a) w [].

(** What a continuation did, after what was logged before it. *)
Definition prepend {A} (l : list event) (r : result A) : result A :=
  Result (out r) (final r) (l ++ log r).

#[global] Instance M_bind : MBind M := fun A B f m w =>
  let r := m w in
  match out r with
  | Ret a => prepend (log r) (f a (final r))
  | Raise e => Result (Raise e) (final r) (log r)
  end.

Definition raise {A} (e : exn) : M A := fun w => Result (Raise e) w [].

Definition emit (ev : event) : M unit := fun w => Result (Ret tt) w [ev].

Definition get_world : M world := fun w => Result (Ret w) w [].

Definition modify (f : world -> world) : M unit := fun w => Result (Ret tt) (f w) [].

Definition print (s : string) : M unit := emit (Print s).

(** [try: m except C as e: h e], where [handles] decides [isinstance(e, C)]. *)
Definition try_except {A} (m : M A) (handles : exn -> bool) (h : exn -> M A) : M A :=
  fun w =>
    let r := m w in
    match out r with
    | Ret _ => r
    | Raise e =>
        if handles e then prepend (log r) (h e (final r)) else r
    end.

(** [try: m finally: f].  The [finally] block always runs; the outcome is
    that of [m] unless the block itself raises. *)
Definition try_finally {A} (m : M A) (f : M unit) : M A :=
  fun w =>
    let r := m w in
    let r' := f (final r) in
    Result (match out r' with Raise e => Raise e | Ret _ => out r end)
           (final r') (log r ++ log r').

(** [sys.exit(code)]. *)
Definition sys_exit {A} (code : Z) : M A := raise (SystemExit code).

(** Running a script as a process: the interpreter exits with status 0
    when the script returns, with the given status on [SystemExit], and
    with status 1 on any other uncaught exception. *)
Definition exit_code (o : outcome unit) : Z :=
  match o with
  | Ret _ => 0
  | Raise (SystemExit code) => code
  | Raise _ => 1
  end%Z.

Definition python_run (script : M unit) (w : world) : result Z :=
  let r := script w in
  let code := exit_code (out r) in
  Result (Ret code) (final r) (log r ++ [ProcessExit code]).

(** ** The collaborators *)

Inductive schema_op := OpExists | OpDelete | OpCreate.

(** The dataset file at its fixed path. *)
Inductive dataset_file :=
  | Missing
  | Unreadable (msg : string)
  | Holds (data : list record).

(** The libraries the scripts call ([requests], [joblib], the database
    client and its batch session) are not part of the repository: what they
    do is a parameter of the model, and the effect of the calls on the store
    follows the interface the specification describes (the collection API
    holds one collection per name; a batch session buffers the submitted
    objects, sends them in batches, keeps the per-object failures to itself
    and raises only when the session as a whole fails). *)

(** How the outside answers.  Health request number [k] is answered after
    [latency k] milliseconds with status [answer k] ([None]: the
    connection fails); a [_fault] is the message of the exception with
    which the call is rejected; [accepts] is the per-object verdict of the
    service, which a batch session records without raising; [batch_size]
    is the number of buffered objects at which the session flushes. *)
Record env := Env {
  latency : nat -> Z;
  answer : nat -> option Z;
  connect_fault : option string;
  schema_fault : schema_op -> option string;
  dataset : dataset_file;
  add_fault : nat -> option string;
  exit_fault : option string;
  accepts : data_object -> bool;
  batch_size : nat
}.

Definition seconds (n : Z) : Z := (1000 * n)%Z.

(** Operations of the service on its store.  Names identify collections:
    [delete] removes what is stored under the name. *)
Definition named (n : string) (c : string * collection) : Prop := c.1 = n.

#[global] Instance named_dec n c : Decision (named n c).
Proof. unfold named. apply _. Defined.

Definition store_count (n : string) (st : store) : nat := length (filter (named n) st).

Definition store_exists (n : string) (st : store) : bool := bool_decide (Exists (named n) st).

Definition store_delete (n : string) (st : store) : store := filter (fun c => ~ named n c) st.

Definition store_create (n : string) (props : list Property) (st : store) : store :=
  st ++ [(n, {| schema := props; objects := [] |})].

Definition store_lookup (n : string) (st : store) : option collection :=
  (fun c : string * collection => c.2) <$> head (filter (named n) st).

Definition add_objects (objs : list data_object) (c : collection) : collection :=
  {| schema := schema c; objects := objects c ++ objs |}.

Definition store_add (n : string) (objs : list data_object) (st : store) : store :=
  (fun c => if decide (named n c) then (c.1, add_objects objs c.2) else c) <$> st.

(** The number of objects held under a name. *)
Definition object_count (n : string) (st : store) : nat :=
  from_option (fun c => length (objects c)) 0 (store_lookup n st).

Section Collaborators.
Context (E : env).

(** [time.time()] *)
Definition time_time : M Z := fun w => Result (Ret (clock w)) w [].

(** [time.sleep(d)] *)
Definition time_sleep (d : Z) : M unit :=
  emit (Sleep d);; modify (fun w => set_clock (clock w + d) w).

(** [requests.get(url, timeout=t)]: the status code of the response; a
    [RequestException] when the connection fails or no answer arrives
    within [t]. *)
Definition requests_get (url : string) (t : Z) : M Z := fun w =>
  let k := requests w in
  let d := Z.max 0 (latency E k) in
  if decide (t <= d)%Z then
    Result (Raise (RequestException "timed out"))
           (set_requests (S k) (set_clock (clock w + Z.max 0 t) w))
           [HttpGet url t]
  else
    Result (match answer E k with
            | Some code => Ret code
            | None => Raise (RequestException "connection failed")
            end)
           (set_requests (S k) (set_clock (clock w + d) w))
           [HttpGet url t].

(** [weaviate.connect_to_local(host, port, grpc_port)] *)
Definition connect_to_local (host : string) (port grpc_port : Z) : M nat :=
  match connect_fault E with
  | Some msg => raise (Exception msg)
  | None =>
      w ← get_world;
      let h := next_session w in
      modify (set_sessions (h :: sessions w) (S h));;
      emit (Connect h);;
      mret h
  end.

(** [client.close()] *)
Definition client_close (h : nat) : M unit :=
  emit (Close h);;
  modify (fun w => set_sessions (filter (fun h' => h' ≠ h) (sessions w)) (next_session w) w).

Definition service_call (op : schema_op) : M unit :=
  match schema_fault E op with
  | Some msg => raise (Exception msg)
  | None => mret tt
  end.

(** [client.collections.exists(n)] *)
Definition collections_exists (client : nat) (n : string) : M bool :=
  emit (CollExists n);;
  service_call OpExists;;
  w ← get_world;
  mret (store_exists n (collections w)).

(** [client.collections.delete(n)] *)
Definition collections_delete (client : nat) (n : string) : M unit :=
  emit (CollDelete n);;
  service_call OpDelete;;
  modify (fun w => set_collections (store_delete n (collections w)) w).

(** [client.collections.create(name=n, properties=props, ...)]: the
    service refuses a name it already holds. *)
Definition collections_create (client : nat) (n : string) (props : list Property) : M string :=
  emit (CollCreate n props);;
  service_call OpCreate;;
  w ← get_world;
  if store_exists n (collections w) then
    raise (Exception ("collection " +:+ n +:+ " already exists"))
  else
    modify (set_collections (store_create n props (collections w)));;
    mret n.

(** [joblib.load(path)] *)
Definition joblib_load (path : string) : M (list record) :=
  emit (JoblibLoad path);;
  match dataset E with
  | Missing => raise (FileNotFoundError ("No such file or directory: " +:+ path))
  | Unreadable msg => raise (Exception msg)
  | Holds data => mret data
  end.

(** Sending the buffered objects: the service stores those it accepts. *)
Definition flush (coll : string) : M unit :=
  modify (fun w =>
    set_batch [] (submitted w)
      (set_collections (store_add coll (filter (fun o => accepts E o = true) (buffer w)) (collections w)) w)).

(** [batch.add_object(properties=o)] *)
Definition add_object (coll : string) (o : data_object) : M unit :=
  emit (AddObject o);;
  w ← get_world;
  match add_fault E (submitted w) with
  | Some msg => raise (Exception msg)
  | None =>
      modify (set_batch (buffer w ++ [o]) (S (submitted w)));;
      if decide (length (buffer w ++ [o]) = batch_size E) then flush coll else mret tt
  end.

(** Leaving the block of a batch session.  Leaving it normally sends
    what is still buffered; leaving it by an exception drops the buffer
    (batches already sent stay stored). *)
Definition batch_exit (coll : string) : M unit :=
  flush coll;;
  emit BatchExit;;
  match exit_fault E with
  | Some msg => raise (Exception msg)
  | None => mret tt
  end.

Definition batch_abort : M unit :=
  modify (fun w => set_batch [] (submitted w) w);;
  emit BatchExit.

(** [with collection.batch.dynamic() as batch: body] *)
Definition with_batch (coll : string) (body : M unit) : M unit :=
  emit (BatchEnter coll);;
  modify (set_batch [] 0);;
  try_except body (fun _ => true) (fun e => batch_abort;; raise e);;
  batch_exit coll.
End Collaborators.

(** ** The readiness probe, shared by both scripts *)

Definition default_url : string := "http://localhost:8080".
Definition default_timeout : Z := seconds 60.
Definition request_timeout : Z := seconds 5.
Definition sleep_interval : Z := seconds 2.

(** Enough iterations for the loop of the probe: every iteration that does
    not return sleeps [sleep_interval], and the loop is entered only while
    less than [timeout] has elapsed. *)
Definition attempts_bound (timeout : Z) : nat := S (S (Z.to_nat (timeout / sleep_interval))).

Section Probe.
Context (E : env) (ready_msg waiting_msg : string).

(** One attempt: the body of the [try] statement.  [true] stands for the
    [return True] inside it. *)
Definition attempt (url : string) : M bool :=
  try_except
    (response ← requests_get E (url +:+ "/v1/.well-known/ready") request_timeout;
     if decide (response = 200%Z) then print ready_msg;; mret true else mret false)
    is_RequestException
    (fun _ => mret false).

(** The [while] loop; [None] when [fuel] iterations were not enough. *)
Fixpoint wait_loop (fuel : nat) (url : string) (timeout start_time : Z) : M (option bool) :=
  match fuel with
  | O => mret None
  | S fuel' =>
      now ← time_time;
      if decide (now - start_time < timeout)%Z then
        returned ← attempt url;
        if returned : bool then mret (Some true)
        else
          print waiting_msg;;
          time_sleep sleep_interval;;
          wait_loop fuel' url timeout start_time
      else mret (Some false)
  end.

Definition wait_for_weaviate_with (url : string) (timeout : Z) : M bool :=
  start_time ← time_time;
  r ← wait_loop (attempts_bound timeout) url timeout start_time;
  mret (default false r).
End Probe.

(** ** setup_collection.py *)

Module SetupCollection.

Definition wait_for_weaviate (E : env) (url : string) (timeout : Z) : M bool :=
  wait_for_weaviate_with E "✅ Weaviate is ready!" "⏳ Waiting for Weaviate to start..."
                         url timeout.

Definition bbc_properties : list Property :=
  [ {| prop_name := "article_content"; data_type := TEXT |};
    {| prop_name := "chunk"; data_type := TEXT |};
    {| prop_name := "chunk_index"; data_type := INT |};
    {| prop_name := "description"; data_type := TEXT |};
    {| prop_name := "link"; data_type := TEXT |};
    {| prop_name := "pubDate"; data_type := TEXT |};
    {| prop_name := "title"; data_type := TEXT |} ].

(** [item.get(key, default)] *)
Definition dict_get (item : record) (key : string) (dflt : pyval) : pyval :=
  default dflt (item !! key).

(** The dict literal built for each item of the dataset. *)
Definition data_object_of (item : record) : data_object :=
  list_to_map
    [ ("article_content", dict_get item "article_content" (PStr ""));
      ("chunk", dict_get item "chunk" (PStr ""));
      ("chunk_index", dict_get item "chunk_index" (PInt 0));
      ("description", dict_get item "description" (PStr ""));
      ("link", dict_get item "link" (PStr ""));
      ("pubDate", dict_get item "pubDate" (PStr ""));
      ("title", dict_get item "title" (PStr "")) ].

Definition progress_msg (done total : nat) : string :=
  "  📤 Inserted " +:+ pretty done +:+ "/" +:+ pretty total +:+ " objects...".

Definition loaded_msg (total : nat) : string :=
  "✅ Successfully loaded " +:+ pretty total +:+ " objects into the collection!".

Definition newline : string := String (Ascii.ascii_of_nat 10) "".

Section Script.
Context (E : env).

Definition create_bbc_collection (client : nat) : M string :=
  found ← collections_exists E client "bbc_collection";
  (if found : bool then
     print "⚠️  Collection 'bbc_collection' already exists. Deleting it...";;
     collections_delete E client "bbc_collection"
   else mret tt);;
  print "📝 Creating BBC collection...";;
  collection ← collections_create E client "bbc_collection" bbc_properties;
  print "✅ Collection created successfully!";;
  mret collection.

(** [for i, data_object in enumerate(data_objects)], from index [i]. *)
Fixpoint insert_loop (batch : string) (total i : nat) (data_objects : list data_object)
  : M unit :=
  match data_objects with
  | [] => mret tt
  | data_object :: rest =>
      add_object E batch data_object;;
      (if decide ((i + 1) mod 100 = 0) then print (progress_msg (i + 1) total)
       else mret tt);;
      insert_loop batch total (S i) rest
  end.

Definition load_data_to_collection (client : nat) (collection : string) : M bool :=
  print "📂 Loading BBC data...";;
  loaded ← try_except
             (bbc_data ← joblib_load E "data/bbc_data.joblib";
              print ("📊 Found " +:+ pretty (length bbc_data) +:+ " data items");;
              mret (Some bbc_data))
             is_FileNotFoundError
             (fun _ =>
                print "❌ Error: data/bbc_data.joblib not found!";;
                print "Make sure the data file exists in the data/ directory";;
                mret None);
  match loaded with
  | None => mret false
  | Some bbc_data =>
      print "🔄 Inserting data into Weaviate...";;
      let data_objects := data_object_of <$> bbc_data in
      try_except
        (with_batch E collection (insert_loop collection (length data_objects) 0 data_objects);;
         print (loaded_msg (length data_objects));;
         mret true)
        is_Exception
        (fun e =>
           print ("❌ Error inserting data: " +:+ str_exn e);;
           mret false)
  end.

(** The [finally] block of [main]: ['client' in locals()]. *)
Definition release_client : M unit :=
  w ← get_world;
  match bindings w !! "client" with
  | Some client => client_close client
  | None => mret tt
  end.

Definition main : M unit :=
  modify (set_bindings ∅);;
  print "🚀 Setting up BBC Collection in Weaviate";;
  print "==================================================";;
  ready ← wait_for_weaviate E default_url default_timeout;
  (if negb ready then
     print "❌ Weaviate is not ready. Make sure it's running with: docker-compose up -d";;
     sys_exit 1
   else mret tt);;
  try_finally
    (try_except
       (client ← connect_to_local E "localhost" 8080 50051;
        modify (fun w => set_bindings (<["client" := client]> (bindings w)) w);;
        print "✅ Connected to Weaviate!";;
        collection ← create_bbc_collection client;
        loaded ← load_data_to_collection client collection;
        if loaded : bool then
          print (newline +:+ "🎉 Setup completed successfully!");;
          print "You can now run your Jupyter notebook."
        else
          print (newline +:+ "❌ Setup failed during data loading.");;
          sys_exit 1)
       is_Exception
       (fun e =>
          print ("❌ Error connecting to Weaviate: " +:+ str_exn e);;
          print "Make sure Weaviate is running with: docker-compose up -d";;
          sys_exit 1))
    release_client.
End Script.

End SetupCollection.

(** ** weaviate_server.py *)

Module WeaviateServer.

(** [patched_popen], closed over [original_popen]. *)
Definition patched_popen (original_popen : popen_fn) : popen_fn :=
  fun args kwargs =>
    original_popen args (<["stderr" := DEVNULL]> (<["stdout" := DEVNULL]> kwargs)).

(** [with suppress_subprocess_output(): body] *)
Definition suppress_subprocess_output {A} (body : M A) : M A :=
  w ← get_world;
  let original_popen := Popen w in
  try_finally
    (modify (set_Popen (patched_popen original_popen));;
     body)
    (modify (set_Popen original_popen)).

Definition wait_for_weaviate (E : env) (url : string) (timeout : Z) : M bool :=
  wait_for_weaviate_with E "Weaviate is ready!" "Waiting for Weaviate to start..."
                         url timeout.

(** The statements the module runs when it is imported; [client] is a
    module-level name. *)
Definition module_body (E : env) : M unit :=
  try_except
    (ready ← wait_for_weaviate E default_url default_timeout;
     if ready : bool then
       client ← connect_to_local E "localhost" 8080 50051;
       modify (fun w => set_bindings (<["client" := client]> (bindings w)) w);;
       print "Connected to Weaviate via Docker"
     else raise (Exception "Weaviate is not ready after waiting"))
    is_Exception
    (fun e =>
       print ("Failed to connect to local Weaviate: " +:+ str_exn e);;
       print "Please ensure Weaviate is running via Docker. Run: docker-compose up -d";;
       raise e).

End WeaviateServer.

(** ** Vocabulary of the properties *)

(** The zero value of a declared data type. *)
Definition zero_value (t : DataType) : pyval :=
  match t with
  | TEXT => PStr ""
  | INT => PInt 0
  end.

Section ProbeVocabulary.
Context (E : env) (ready_msg waiting_msg : string).

Definition ready_path (url : string) : string := url +:+ "/v1/.well-known/ready".

(** The world after health request number [requests w], answered or
    given up after [d] milliseconds. *)
Definition after_request (d : Z) (w : world) : world :=
  set_requests (S (requests w)) (set_clock (clock w + d) w).

(** Health request number [k] is answered in time with status 200. *)
Definition timely_ready (k : nat) : Prop :=
  (latency E k < request_timeout)%Z /\ answer E k = Some 200%Z.

(** The log of [n] failed attempts, each followed by the waiting message
    and the sleep. *)
Fixpoint retries (url : string) (n : nat) : list event :=
  match n with
  | O => []
  | S n' =>
      HttpGet (ready_path url) request_timeout :: Print waiting_msg :: Sleep sleep_interval
        :: retries url n'
  end.

Definition last_attempt (url : string) (b : bool) : list event :=
  if b then [HttpGet (ready_path url) request_timeout; Print ready_msg] else [].

End ProbeVocabulary.

(** The store: replacing the collection *)

(** What is left of the store with the collection of the name dropped, if
    there is one. *)
Definition without (n : string) (st : store) : store :=
  if store_exists n st then store_delete n st else st.

(** The store after the collection was replaced. *)
Definition replaced (st : store) : store :=
  store_create "bbc_collection" SetupCollection.bbc_properties (without "bbc_collection" st).

Definition create_log (found : bool) : list event :=
  CollExists "bbc_collection"
  :: (if found then
        [Print "⚠️  Collection 'bbc_collection' already exists. Deleting it...";
         CollDelete "bbc_collection"]
      else [])
  ++ [Print "📝 Creating BBC collection...";
      CollCreate "bbc_collection" SetupCollection.bbc_properties;
      Print "✅ Collection created successfully!"].

(** Sessions *)

Definition session_event (e : event) : bool :=
  match e with
  | Connect _ | Close _ => true
  | _ => false
  end.

(** [m] opens and closes no session, rebinds no name, and raises nothing
    but subclasses of [Exception]. *)
Definition inert {A} (m : M A) : Prop :=
  forall w,
    bindings (final (m w)) = bindings w
    /\ sessions (final (m w)) = sessions w
    /\ next_session (final (m w)) = next_session w
    /\ Forall (fun e => session_event e = false) (log (m w))
    /\ (forall e, out (m w) = Raise e -> is_Exception e = true).

(** The handles of the sessions opened and closed, in the order of the
    calls. *)
Definition acquired (l : list event) : list nat :=
  omap (fun e => match e with Connect h => Some h | _ => None end) l.

Definition released (l : list event) : list nat :=
  omap (fun e => match e with Close h => Some h | _ => None end) l.

Definition session_free (l : list event) : Prop :=
  Forall (fun e => session_event e = false) l.

(** The batch session and the load *)

(** The objects handed to [add_object], in the order of the calls. *)
Definition submissions (l : list event) : list data_object :=
  omap (fun e => match e with AddObject o => Some o | _ => None end) l.

(** What is printed once [count] objects have been submitted. *)
Definition report_after (total count : nat) : list event :=
  if decide (count mod 100 = 0) then [Print (SetupCollection.progress_msg count total)] else [].

(** The log of the insertion loop over [data_objects], [i] objects having
    been submitted before: every object is submitted, and a report follows
    the submission that makes the count a multiple of 100. *)
Fixpoint insert_log (total i : nat) (data_objects : list data_object) : list event :=
  match data_objects with
  | [] => []
  | o :: rest => AddObject o :: report_after total (S i) ++ insert_log total (S i) rest
  end.

Definition load_header (n : nat) : list event :=
  [ Print "📂 Loading BBC data...";
    JoblibLoad "data/bbc_data.joblib";
    Print ("📊 Found " +:+ pretty n +:+ " data items");
    Print "🔄 Inserting data into Weaviate..." ].

Section BatchVocabulary.
Context (E : env).

Definition accepted (objs : list data_object) : list data_object :=
  filter (fun o => accepts E o = true) objs.

(** The store once everything still buffered has been sent. *)
Definition settle (coll : string) (w : world) : store :=
  store_add coll (accepted (buffer w)) (collections w).

Definition flushed (coll : string) (w : world) : world :=
  set_batch [] (submitted w) (set_collections (settle coll w) w).

(** The world after an [add_object] call that was not rejected. *)
Definition absorb (coll : string) (o : data_object) (w : world) : world :=
  let w1 := set_batch (buffer w ++ [o]) (S (submitted w)) w in
  if decide (length (buffer w1) = batch_size E) then flushed coll w1 else w1.
End BatchVocabulary.

(** The runs of [main] *)

Definition main_prelude : list event :=
  [ Print "🚀 Setting up BBC Collection in Weaviate";
    Print "==================================================" ].

Definition not_ready_msg : string :=
  "❌ Weaviate is not ready. Make sure it's running with: docker-compose up -d".

(** What the [except Exception as e] block of [main] prints. *)
Definition connect_error (e : exn) : list event :=
  [ Print ("❌ Error connecting to Weaviate: " +:+ str_exn e);
    Print "Make sure Weaviate is running with: docker-compose up -d" ].

Definition load_failed_msg : string :=
  SetupCollection.newline +:+ "❌ Setup failed during data loading.".

Definition completed : list event :=
  [ Print (SetupCollection.newline +:+ "🎉 Setup completed successfully!");
    Print "You can now run your Jupyter notebook." ].

(** The world when [main] starts: no local name is bound yet. *)
Definition started (w : world) : world := set_bindings ∅ w.

(** The world after [client = weaviate.connect_to_local(...)] returned
    session [h]. *)
Definition connected (h : nat) (w : world) : world :=
  set_bindings (<["client" := h]> (bindings w)) (set_sessions (h :: sessions w) (S h) w).

(** The world after [client.close()]. *)
Definition closed (h : nat) (w : world) : world :=
  set_sessions (filter (fun h' => h' ≠ h) (sessions w)) (next_session w) w.

(** The ways [main] runs, by the stage at which it ends: the result of
    each stage (the probe, the connection, the creation of the collection,
    the load) decides the next, and the result of [main] is built from
    theirs.  [w1] and [l1] are the world and the log the probe leaves, [h]
    the session the connection returns, [w3], [l3] and [w4], [l4] what the
    creation and the load leave. *)
Inductive main_path (E : env) (w : world) : result unit -> Prop :=
  | path_not_ready w1 l1 :
      SetupCollection.wait_for_weaviate E default_url default_timeout (started w)
      = Result (Ret false) w1 l1 ->
      main_path E w
        (Result (Raise (SystemExit 1)) w1 (main_prelude ++ l1 ++ [Print not_ready_msg]))
  | path_connect_failed w1 l1 msg :
      SetupCollection.wait_for_weaviate E default_url default_timeout (started w)
      = Result (Ret true) w1 l1 ->
      connect_fault E = Some msg ->
      main_path E w
        (Result (Raise (SystemExit 1)) w1
                (main_prelude ++ l1 ++ connect_error (Exception msg)))
  | path_create_failed w1 l1 h e w3 l3 :
      SetupCollection.wait_for_weaviate E default_url default_timeout (started w)
      = Result (Ret true) w1 l1 ->
      connect_fault E = None ->
      h = next_session w1 ->
      SetupCollection.create_bbc_collection E h (connected h w1) = Result (Raise e) w3 l3 ->
      main_path E w
        (Result (Raise (SystemExit 1)) (closed h w3)
                (main_prelude ++ l1 ++ [Connect h; Print "✅ Connected to Weaviate!"]
                 ++ l3 ++ connect_error e ++ [Close h]))
  | path_load_raised w1 l1 h coll w3 l3 e w4 l4 :
      SetupCollection.wait_for_weaviate E default_url default_timeout (started w)
      = Result (Ret true) w1 l1 ->
      connect_fault E = None ->
      h = next_session w1 ->
      SetupCollection.create_bbc_collection E h (connected h w1) = Result (Ret coll) w3 l3 ->
      SetupCollection.load_data_to_collection E h coll w3 = Result (Raise e) w4 l4 ->
      main_path E w
        (Result (Raise (SystemExit 1)) (closed h w4)
                (main_prelude ++ l1 ++ [Connect h; Print "✅ Connected to Weaviate!"]
                 ++ l3 ++ l4 ++ connect_error e ++ [Close h]))
  | path_load_failed w1 l1 h coll w3 l3 w4 l4 :
      SetupCollection.wait_for_weaviate E default_url default_timeout (started w)
      = Result (Ret true) w1 l1 ->
      connect_fault E = None ->
      h = next_session w1 ->
      SetupCollection.create_bbc_collection E h (connected h w1) = Result (Ret coll) w3 l3 ->
      SetupCollection.load_data_to_collection E h coll w3 = Result (Ret false) w4 l4 ->
      main_path E w
        (Result (Raise (SystemExit 1)) (closed h w4)
                (main_prelude ++ l1 ++ [Connect h; Print "✅ Connected to Weaviate!"]
                 ++ l3 ++ l4 ++ [Print load_failed_msg] ++ [Close h]))
  | path_completed w1 l1 h coll w3 l3 w4 l4 :
      SetupCollection.wait_for_weaviate E default_url default_timeout (started w)
      = Result (Ret true) w1 l1 ->
      connect_fault E = None ->
      h = next_session w1 ->
      SetupCollection.create_bbc_collection E h (connected h w1) = Result (Ret coll) w3 l3 ->
      SetupCollection.load_data_to_collection E h coll w3 = Result (Ret true) w4 l4 ->
      main_path E w
        (Result (Ret tt) (closed h w4)
                (main_prelude ++ l1 ++ [Connect h; Print "✅ Connected to Weaviate!"]
                 ++ l3 ++ l4 ++ completed ++ [Close h])).

(** Readiness, connection, creation of the collection and load succeed,
    each in the world the stage before it leaves. *)
Definition setup_succeeds (E : env) (w : world) : Prop :=
  exists w1 l1 h coll w3 l3 w4 l4,
    SetupCollection.wait_for_weaviate E default_url default_timeout (started w)
    = Result (Ret true) w1 l1
    /\ out (connect_to_local E "localhost" 8080 50051 w1) = Ret h
    /\ SetupCollection.create_bbc_collection E h (connected h w1) = Result (Ret coll) w3 l3
    /\ SetupCollection.load_data_to_collection E h coll w3 = Result (Ret true) w4 l4.

(** The messages with which [main] reports a failure. *)
Inductive failure_report : string -> Prop :=
  | report_not_ready : failure_report not_ready_msg
  | report_error e : failure_report ("❌ Error connecting to Weaviate: " +:+ str_exn e)
  | report_load_failed : failure_report load_failed_msg.

(** Further vocabulary *)

(** The keys of the objects sent to the service: the names of the
    properties of the schema. *)
Definition schema_keys : gset string :=
  list_to_set (prop_name <$> SetupCollection.bbc_properties).

(** The strings printed, in order. *)
Definition printed (l : list event) : list string :=
  omap (fun e => match e with Print s => Some s | _ => None end) l.

(** What [load_data_to_collection] prints when the batch block raised [e]. *)
Definition insert_error_msg (e : exn) : string := "❌ Error inserting data: " +:+ str_exn e.

(** [m] changes the store only by adding objects to the collection [coll]. *)
Definition appends_to (coll : string) {A} (m : M A) : Prop :=
  forall w, exists objs, collections (final (m w)) = store_add coll objs (collections w).

(** The exception [weaviate_server.py] raises when the probe gave up, and
    what its [except] block prints before raising again. *)
Definition not_ready_error : exn := Exception "Weaviate is not ready after waiting".

Definition import_failed (e : exn) : list event :=
  [ Print ("Failed to connect to local Weaviate: " +:+ str_exn e);
    Print "Please ensure Weaviate is running via Docker. Run: docker-compose up -d" ].

(** The keyword arguments as [patched_popen] passes them on. *)
Definition silenced (kwargs : gmap string stream) : gmap string stream :=
  <["stderr" := DEVNULL]> (<["stdout" := DEVNULL]> kwargs).

(** ** Sample worlds and environments *)

(** The [Popen] of the standard library: the streams are inherited unless
    the keyword arguments say otherwise. *)
Definition system_Popen : popen_fn := fun args kwargs =>
  {| argv := args;
     p_stdout := default INHERIT (kwargs !! "stdout");
     p_stderr := default INHERIT (kwargs !! "stderr") |}.

(** A process that has just started, facing an empty store. *)
Definition fresh_world : world := World 0 0 [] [] 0 [] 0 system_Popen ∅.

(** A service that stores an object only if every property of the schema
    holds a value of its declared type. *)
Definition type_checks (o : data_object) : bool :=
  forallb (fun p => match o !! prop_name p, data_type p with
                    | Some (PStr _), TEXT | Some (PInt _), INT => true
                    | _, _ => false
                    end)
          SetupCollection.bbc_properties.

(** A service that is up, answers every health request with 200 after
    10 ms and rejects no call; the dataset file holds [data]. *)
Definition healthy_env (data : list record) : env :=
  {| latency := fun _ => 10%Z;
     answer := fun _ => Some 200%Z;
     connect_fault := None;
     schema_fault := fun _ => None;
     dataset := Holds data;
     add_fault := fun _ => None;
     exit_fault := None;
     accepts := type_checks;
     batch_size := 100 |}.

(** A service that is still starting: it answers 503, after 3.9 s for the
    first ten health requests and not within 5 s afterwards. *)
Definition starting_env : env :=
  {| latency := fun k => if decide (k < 10) then 3900%Z else 5000%Z;
     answer := fun _ => Some 503%Z;
     connect_fault := None;
     schema_fault := fun _ => None;
     dataset := Missing;
     add_fault := fun _ => None;
     exit_fault := None;
     accepts := type_checks;
     batch_size := 100 |}.

(** A store left behind by an earlier setup: a collection of the same name
    with another schema and an object in it, next to a collection of another
    name. *)
Definition legacy_world : world :=
  set_collections
    [ ("bbc_collection",
       {| schema := [ {| prop_name := "headline"; data_type := TEXT |} ];
          objects := [ {[ "headline" := PStr "Budget day" ]} ] |});
      ("notes", {| schema := []; objects := [] |}) ]
    fresh_world.

(** The store right after the collection was created, still empty. *)
Definition ready_world : world :=
  set_collections
    [ ("bbc_collection",
       {| schema := SetupCollection.bbc_properties; objects := [] |}) ]
    fresh_world.

(** A chunk of an article, with two of the seven fields left out. *)
Definition sample_record : record :=
  {[ "article_content" := PStr "Shares rose on Tuesday. Analysts expect more.";
     "chunk" := PStr "Shares rose on Tuesday.";
     "chunk_index" := PInt 0;
     "link" := PStr "https://www.bbc.co.uk/news/business-1";
     "title" := PStr "Shares rise" ]}.

(** A record whose [chunk_index] was pickled as text. *)
Definition mistyped_record : record :=
  {[ "chunk" := PStr "Shares rose on Tuesday.";
     "chunk_index" := PStr "first";
     "title" := PStr "Shares rise" ]}.

(** A service that is up but refuses to create collections. *)
Definition read_only_env : env :=
  {| latency := fun _ => 10%Z;
     answer := fun _ => Some 200%Z;
     connect_fault := None;
     schema_fault := fun op => match op with OpCreate => Some "read-only" | _ => None end;
     dataset := Holds [];
     add_fault := fun _ => None;
     exit_fault := None;
     accepts := type_checks;
     batch_size := 100 |}.

(** A service that is up, with the dataset file missing. *)
Definition no_dataset_env : env :=
  {| latency := fun _ => 10%Z;
     answer := fun _ => Some 200%Z;
     connect_fault := None;
     schema_fault := fun _ => None;
     dataset := Missing;
     add_fault := fun _ => None;
     exit_fault := None;
     accepts := type_checks;
     batch_size := 100 |}.


(** A service whose connection drops at the second [add_object] call. *)
Definition failing_batch_env : env :=
  {| latency := fun _ => 10%Z;
     answer := fun _ => Some 200%Z;
     connect_fault := None;
     schema_fault := fun _ => None;
     dataset := Holds [sample_record; sample_record; sample_record];
     add_fault := fun k => if decide (k = 1) then Some "connection reset" else None;
     exit_fault := None;
     accepts := type_checks;
     batch_size := 100 |}.

(** * Properties *)

(** ** Running monadic code *)

Lemma run_bind {A B} (m : M A) (f : A -> M B) (w : world) :
  (m ≫= f) w =
  match out (m w) with
  | Ret a => prepend (log (m w)) (f a (final (m w)))
  | Raise e => Result (Raise e) (final (m w)) (log (m w))
  end.
Proof. reflexivity. Qed.

Lemma run_try_except {A} (m : M A) handles (h : exn -> M A) (w : world) :
  try_except m handles h w =
  match out (m w) with
  | Ret _ => m w
  | Raise e => if handles e then prepend (log (m w)) (h e (final (m w))) else m w
  end.
Proof. reflexivity. Qed.

Lemma result_eta {A} (r : result A) : Result (out r) (final r) (log r) = r.
Proof. destruct r; reflexivity. Qed.

Lemma prepend_nil {A} (r : result A) : prepend [] r = r.
Proof. destruct r; reflexivity. Qed.

Lemma prepend_Result {A} (l : list event) (o : outcome A) w l' :
  prepend l (Result o w l') = Result o w (l ++ l').
Proof. reflexivity. Qed.

Lemma prepend_prepend {A} (l1 l2 : list event) (r : result A) :
  prepend l1 (prepend l2 r) = prepend (l1 ++ l2) r.
Proof. unfold prepend; cbn. by rewrite app_assoc. Qed.

(** Sequencing after a step whose result is known. *)
Lemma bind_step {A B} (m : M A) (f : A -> M B) (w w1 : world) (a : A) (l1 : list event) :
  m w = Result (Ret a) w1 l1 -> (m ≫= f) w = prepend l1 (f a w1).
Proof. intros H. rewrite run_bind, H. reflexivity. Qed.

Lemma bind_stop {A B} (m : M A) (f : A -> M B) (w w1 : world) (e : exn) (l1 : list event) :
  m w = Result (Raise e) w1 l1 -> (m ≫= f) w = Result (Raise e) w1 l1.
Proof. intros H. rewrite run_bind, H. reflexivity. Qed.

(** ** C5: defaults of absent fields *)

(** C5. For every input record and every field of the schema, the object
    built for submission holds the record's value of the field when the
    record has one, and otherwise the zero value of the field's type: the
    empty string for the six text fields, integer 0 for [chunk_index].
    Building the object is a total function: an absent field is no error. *)
Theorem data_object_of_defaults (item : record) (p : Property) :
  p ∈ SetupCollection.bbc_properties ->
  SetupCollection.data_object_of item !! prop_name p =
    Some (default (zero_value (data_type p)) (item !! prop_name p))
  /\ (item !! prop_name p = None ->
      SetupCollection.data_object_of item !! prop_name p = Some (zero_value (data_type p))).
Proof.
  intros Hp.
  assert (SetupCollection.data_object_of item !! prop_name p =
          Some (default (zero_value (data_type p)) (item !! prop_name p))) as Hget.
  { unfold SetupCollection.bbc_properties in Hp.
    repeat (apply elem_of_cons in Hp as [-> | Hp]); [.. | by apply elem_of_nil in Hp];
      reflexivity. }
  split; [exact Hget |].
  intros Hnone. rewrite Hget, Hnone. reflexivity.
Qed.

Lemma data_object_of_defaults_witness :
  ({[ "chunk" := PStr "Breaking news" ]} : record) !! "chunk_index" = None
  /\ SetupCollection.data_object_of {[ "chunk" := PStr "Breaking news" ]} !! "chunk_index"
     = Some (PInt 0).
Proof.
  split; [reflexivity |].
  apply (data_object_of_defaults {[ "chunk" := PStr "Breaking news" ]}
           {| prop_name := "chunk_index"; data_type := INT |}).
  - do 2 apply list_elem_of_further. apply list_elem_of_here.
  - reflexivity.
Defined.

(** ** C10: the patch of [subprocess.Popen] is undone *)

(** Inside the context, a process is spawned with both output streams
    sent to [DEVNULL], whatever the caller asked for. *)
Lemma patched_popen_redirects (original_popen : popen_fn) args kwargs :
  WeaviateServer.patched_popen original_popen args kwargs =
  original_popen args (<["stderr" := DEVNULL]> (<["stdout" := DEVNULL]> kwargs))
  /\ (<["stderr" := DEVNULL]> (<["stdout" := DEVNULL]> kwargs)) !! "stdout" = Some DEVNULL
  /\ (<["stderr" := DEVNULL]> (<["stdout" := DEVNULL]> kwargs)) !! "stderr" = Some DEVNULL.
Proof.
  split; [reflexivity |]. split.
  - rewrite lookup_insert_ne by done. apply lookup_insert_eq.
  - apply lookup_insert_eq.
Qed.

(** C10. Whatever the body of the [with] block does, and whether it
    completes or raises, on leaving the context [subprocess.Popen] is bound
    to the function it was bound to on entry.  The body runs with the
    patched function bound, and its outcome (value or exception) and its log
    are those of the block. *)
Theorem suppress_subprocess_output_restores {A} (body : M A) (w : world) :
  let inside := body (set_Popen (WeaviateServer.patched_popen (Popen w)) w) in
  let r := WeaviateServer.suppress_subprocess_output body w in
  Popen (final r) = Popen w
  /\ out r = out inside
  /\ log r = log inside
  /\ final r = set_Popen (Popen w) (final inside).
Proof.
  unfold WeaviateServer.suppress_subprocess_output.
  cbv [mbind M_bind get_world modify try_finally prepend out final log].
  destruct (body _) as [o w' l]; destruct o; cbn; rewrite ?app_nil_r; auto.
Qed.

(** ** C9 and C3: the readiness probe *)

Section ProbeFacts.
Context (E : env) (ready_msg waiting_msg : string).

Lemma wait_loop_expired fuel url timeout start_time w :
  (timeout <= clock w - start_time)%Z ->
  wait_loop E ready_msg waiting_msg (S fuel) url timeout start_time w
  = Result (Ret (Some false)) w [].
Proof.
  intros Hexp. cbn [wait_loop].
  rewrite (bind_step _ _ w w (clock w) []) by reflexivity.
  destruct (decide _) as [Hlt | _]; [lia | reflexivity].
Qed.

Lemma wait_nonpositive url timeout w :
  (timeout <= 0)%Z ->
  wait_for_weaviate_with E ready_msg waiting_msg url timeout w = Result (Ret false) w [].
Proof.
  intros Hle. unfold wait_for_weaviate_with, attempts_bound.
  rewrite (bind_step _ _ w w (clock w) []) by reflexivity.
  rewrite (bind_step _ _ w w (Some false) []) by (apply wait_loop_expired; lia).
  reflexivity.
Qed.
(** An attempt issues one request, takes at most [request_timeout], and
    returns [True] exactly on a timely answer with status 200. *)
Lemma attempt_cases url w :
  exists d : Z,
    (0 <= d <= request_timeout)%Z
    /\ ((attempt E ready_msg url w
         = Result (Ret true) (after_request d w)
                  [HttpGet (ready_path url) request_timeout; Print ready_msg]
         /\ (d < request_timeout)%Z
         /\ timely_ready E (requests w))
        \/ (attempt E ready_msg url w
            = Result (Ret false) (after_request d w)
                     [HttpGet (ready_path url) request_timeout]
            /\ ~ timely_ready E (requests w))).
Proof.
  unfold attempt. rewrite run_try_except, run_bind.
  unfold requests_get, after_request, ready_path, timely_ready.
  destruct (decide (request_timeout <= Z.max 0 (latency E (requests w)))%Z) as [Hlate | Hintime].
  - exists (Z.max 0 request_timeout). split; [unfold request_timeout, seconds; lia |].
    right. split; [reflexivity |].
    unfold request_timeout, seconds in *. lia.
  - exists (Z.max 0 (latency E (requests w))). split; [lia |].
    destruct (answer E (requests w)) as [code |] eqn:Hanswer; cbn.
    + destruct (decide (code = 200%Z)) as [-> | Hother]; cbn.
      * left. split; [reflexivity |]. split; [lia |]. split; [lia | reflexivity].
      * right. split; [reflexivity |]. intros [_ Hcode]. congruence.
    + right. split; [reflexivity |]. intros [_ Hcode]. discriminate.
Qed.

Lemma wait_loop_S fuel url timeout start_time :
  wait_loop E ready_msg waiting_msg (S fuel) url timeout start_time =
  (now ← time_time;
   if decide (now - start_time < timeout)%Z then
     returned ← attempt E ready_msg url;
     if returned : bool then mret (Some true)
     else
       print waiting_msg;;
       time_sleep sleep_interval;;
       wait_loop E ready_msg waiting_msg fuel url timeout start_time
   else mret (Some false)).
Proof. reflexivity. Qed.

Lemma time_sleep_run d w :
  time_sleep d w = Result (Ret tt) (set_clock (clock w + d) w) [Sleep d].
Proof. reflexivity. Qed.

(** The loop, given fuel for the time that is left: it returns, having
    made [n] failed attempts and, when it returns [True], one successful
    attempt that ends it. *)
Lemma wait_loop_spec url timeout start_time fuel :
  forall w,
    (timeout - (clock w - start_time) <= sleep_interval * Z.of_nat fuel)%Z ->
    exists (b : bool) (n : nat) (t : Z),
      wait_loop E ready_msg waiting_msg (S fuel) url timeout start_time w
      = Result (Ret (Some b))
               (set_requests (requests w + n + (if b then 1 else 0)) (set_clock t w))
               (retries waiting_msg url n ++ last_attempt ready_msg url b)
      /\ (clock w <= t)%Z
      /\ (forall k, k < n -> ~ timely_ready E (requests w + k))
      /\ (b = true ->
          (t - start_time < timeout + request_timeout)%Z
          /\ timely_ready E (requests w + n))
      /\ (b = false ->
          (timeout <= t - start_time)%Z
          /\ ((n = 0 /\ t = clock w)
              \/ (clock w - start_time < timeout
                  /\ t - start_time < timeout + request_timeout + sleep_interval)%Z)).
Proof.
  induction fuel as [| fuel IH]; intros w Hfuel.
  - (* the time is up: the check ends the loop *)
    exists false, 0, (clock w).
    rewrite wait_loop_expired by (unfold sleep_interval, seconds in Hfuel; lia).
    split; [| split; [lia | split; [lia | split; [discriminate | intros _; split; [|left; done]]]]].
    + destruct w; cbn. by rewrite !Nat.add_0_r.
    + unfold sleep_interval, seconds in Hfuel; lia.
  - rewrite wait_loop_S.
    rewrite (bind_step _ _ w w (clock w) []) by reflexivity. rewrite prepend_nil.
    destruct (decide (clock w - start_time < timeout)%Z) as [Hin | Hout].
    + destruct (attempt_cases url w) as (d & Hd & [(Hatt & Hlt & Hans) | [Hatt Hnot]]).
      * (* status 200: return True at once *)
        rewrite (bind_step _ _ _ _ _ _ Hatt).
        exists true, 0, (clock w + d)%Z.
        split; [| split; [lia | split; [lia | split; [| discriminate]]]].
        -- destruct w; cbn. by rewrite Nat.add_0_r, Nat.add_1_r.
        -- intros _. rewrite Nat.add_0_r. split; [lia | exact Hans].
      * (* not ready: report, sleep, try again *)
        rewrite (bind_step _ _ _ _ _ _ Hatt).
        rewrite (bind_step _ _ _ (after_request d w) tt [Print waiting_msg]) by reflexivity.
        rewrite (bind_step _ _ _ _ _ _ (time_sleep_run _ _)).
        set (w1 := set_clock (clock (after_request d w) + sleep_interval) (after_request d w)).
        assert (clock w1 = clock w + d + sleep_interval)%Z as Hclock by reflexivity.
        assert (requests w1 = S (requests w)) as Hreq by reflexivity.
        destruct (IH w1) as (b & n & t & Hrun & Hmono & Hfailed & Htrue & Hfalse).
        { rewrite Hclock. unfold sleep_interval, seconds in *; lia. }
        rewrite Hrun, !prepend_Result.
        exists b, (S n), t.
        split; [| split; [| split; [| split]]].
        -- f_equal.
           rewrite Hreq. subst w1. unfold after_request, set_requests, set_clock; cbn.
           f_equal. destruct b; lia.
        -- rewrite Hclock in Hmono. unfold sleep_interval, seconds in Hmono. lia.
        -- intros k Hk. destruct k as [| k]; [by rewrite Nat.add_0_r |].
           replace (requests w + S k) with (requests w1 + k) by (rewrite Hreq; lia).
           apply Hfailed. lia.
        -- intros Hb. destruct (Htrue Hb) as [Hlate Hans]. split; [exact Hlate |].
           rewrite Hreq in Hans. by replace (requests w + S n) with (S (requests w) + n) by lia.
        -- intros Hb. destruct (Hfalse Hb) as [Hup Hwhen]. split; [exact Hup |].
           right. split; [exact Hin |].
           destruct Hwhen as [[_ ->] | [_ Hlate]]; [| exact Hlate].
           rewrite Hclock. unfold request_timeout, sleep_interval, seconds in *. lia.
    + (* the time is up *)
      exists false, 0, (clock w).
      split; [| split; [lia | split; [lia | split; [discriminate | intros _; split; [lia | left; done]]]]].
      destruct w; cbn. by rewrite !Nat.add_0_r.
Qed.

Lemma attempts_bound_enough timeout :
  (timeout <= sleep_interval * Z.of_nat (S (Z.to_nat (timeout / sleep_interval))))%Z.
Proof.
  unfold sleep_interval, seconds. change (1000 * 2)%Z with 2000%Z.
  pose proof (Z.mul_succ_div_gt timeout 2000 ltac:(lia)) as Hdiv.
  destruct (decide (timeout <= 0)%Z) as [Hneg | Hpos]; [lia |].
  assert (0 <= timeout / 2000)%Z by (apply Z.div_pos; lia).
  lia.
Qed.

(** The probe returns; its log is [n] failed attempts followed, when it
    returns [True], by the attempt that was answered 200. *)
Lemma wait_for_weaviate_with_spec url timeout w :
  exists (b : bool) (n : nat) (t : Z),
    wait_for_weaviate_with E ready_msg waiting_msg url timeout w
    = Result (Ret b)
             (set_requests (requests w + n + (if b then 1 else 0)) (set_clock t w))
             (retries waiting_msg url n ++ last_attempt ready_msg url b)
    /\ (clock w <= t)%Z
    /\ (forall k, k < n -> ~ timely_ready E (requests w + k))
    /\ (b = true ->
        (t - clock w < timeout + request_timeout)%Z
        /\ timely_ready E (requests w + n))
    /\ (b = false ->
        (timeout <= t - clock w)%Z
        /\ ((n = 0 /\ t = clock w)
            \/ (0 < timeout
                /\ t - clock w < timeout + request_timeout + sleep_interval)%Z)).
Proof.
  unfold wait_for_weaviate_with, attempts_bound.
  rewrite (bind_step _ _ w w (clock w) []) by reflexivity. rewrite prepend_nil.
  destruct (wait_loop_spec url timeout (clock w) (S (Z.to_nat (timeout / sleep_interval))) w)
    as (b & n & t & Hrun & Hmono & Hfailed & Htrue & Hfalse).
  { pose proof (attempts_bound_enough timeout). lia. }
  exists b, n, t.
  rewrite (bind_step _ _ _ _ _ _ Hrun).
  split; [unfold prepend; cbn [mret M_ret out final log default]; by rewrite app_nil_r |]. split; [exact Hmono |]. split; [exact Hfailed |].
  split; [exact Htrue |].
  intros Hb. destruct (Hfalse Hb) as [Hup Hwhen]. split; [exact Hup |].
  destruct Hwhen as [Hnone | [Hin Hlate]]; [left; exact Hnone | right].
  split; [lia | exact Hlate].
Qed.

End ProbeFacts.

(** C9. With a timeout of zero or less, the probe of either script returns
    [False] at once: the result carries an empty log (no health request, no
    sleep, no print) and the world it started from (the clock and the
    request counter included). *)
Theorem wait_for_weaviate_nonpositive_timeout (E : env) (url : string) (timeout : Z) (w : world) :
  (timeout <= 0)%Z ->
  SetupCollection.wait_for_weaviate E url timeout w = Result (Ret false) w []
  /\ WeaviateServer.wait_for_weaviate E url timeout w = Result (Ret false) w [].
Proof.
  intros Hle. unfold SetupCollection.wait_for_weaviate, WeaviateServer.wait_for_weaviate.
  split; apply wait_nonpositive; exact Hle.
Qed.

Lemma wait_for_weaviate_nonpositive_timeout_witness :
  (0 <= 0)%Z
  /\ SetupCollection.wait_for_weaviate starting_env default_url 0 fresh_world
     = Result (Ret false) fresh_world []
  /\ WeaviateServer.wait_for_weaviate starting_env default_url 0 fresh_world
     = Result (Ret false) fresh_world [].
Proof.
  split; [lia |].
  apply (wait_for_weaviate_nonpositive_timeout starting_env default_url 0 fresh_world). lia.
Defined.



(** ** The store of the service *)

Lemma store_exists_true n (st : store) :
  store_exists n st = true <-> exists c, c ∈ st /\ named n c.
Proof. unfold store_exists. rewrite bool_decide_eq_true, Exists_exists. reflexivity. Qed.

Lemma store_exists_delete n (st : store) : store_exists n (store_delete n st) = false.
Proof.
  apply not_true_is_false. rewrite store_exists_true. intros (c & Hin & Hc).
  apply list_elem_of_filter in Hin as [Hnot _]. by apply Hnot.
Qed.

Lemma store_count_absent n (st : store) : store_exists n st = false -> store_count n st = 0.
Proof.
  intros Hno. unfold store_count.
  induction st as [| c st IH]; [reflexivity |].
  rewrite filter_cons. destruct (decide (named n c)) as [Hc | Hc].
  - exfalso. apply not_true_iff_false in Hno. apply Hno, store_exists_true.
    exists c. split; [left | exact Hc].
  - apply IH. apply not_true_is_false. rewrite store_exists_true. intros (c' & Hin & Hc').
    apply not_true_iff_false in Hno. apply Hno, store_exists_true.
    exists c'. split; [by right | exact Hc'].
Qed.

Lemma store_delete_absent n (st : store) : store_exists n st = false -> store_delete n st = st.
Proof.
  intros Hno. unfold store_delete.
  induction st as [| c st IH]; [reflexivity |].
  assert (~ named n c) as Hc.
  { intros Hc. apply not_true_iff_false in Hno. apply Hno, store_exists_true.
    exists c. split; [left | exact Hc]. }
  rewrite filter_cons, decide_True by exact Hc. f_equal. apply IH.
  apply not_true_is_false. rewrite store_exists_true. intros (c' & Hin & Hc').
  apply not_true_iff_false in Hno. apply Hno, store_exists_true.
  exists c'. split; [by right | exact Hc'].
Qed.

Lemma store_count_create n props (st : store) :
  store_count n (store_create n props st) = S (store_count n st).
Proof.
  unfold store_count, store_create. rewrite filter_app, length_app.
  rewrite filter_cons, decide_True by reflexivity. cbn. lia.
Qed.

Lemma store_lookup_create n props (st : store) :
  store_exists n st = false ->
  store_lookup n (store_create n props st) = Some {| schema := props; objects := [] |}.
Proof.
  intros Hno. unfold store_lookup, store_create. rewrite filter_app.
  pose proof (store_count_absent n st Hno) as Hzero. unfold store_count in Hzero.
  apply nil_length_inv in Hzero. rewrite Hzero.
  rewrite filter_cons, decide_True by reflexivity. reflexivity.
Qed.

Lemma store_delete_create n props (st : store) :
  store_delete n (store_create n props st) = store_delete n st.
Proof.
  unfold store_delete, store_create. rewrite filter_app, filter_cons.
  rewrite decide_False by (intros Hnot; by apply Hnot). apply app_nil_r.
Qed.

Lemma store_exists_create n props (st : store) :
  store_exists n (store_create n props st) = true.
Proof.
  apply store_exists_true. exists (n, {| schema := props; objects := [] |}).
  split; [| reflexivity]. unfold store_create. apply elem_of_app. right. left.
Qed.

Lemma without_absent n (st : store) : store_exists n (without n st) = false.
Proof.
  unfold without. destruct (store_exists n st) eqn:Hfound; [apply store_exists_delete | exact Hfound].
Qed.

Lemma without_create n props (st : store) :
  without n (store_create n props (without n st)) = without n st.
Proof.
  unfold without at 1. rewrite store_exists_create, store_delete_create.
  apply store_delete_absent, without_absent.
Qed.

(** ** Running the primitives *)

Lemma ret_run {A} (a : A) w : (mret a : M A) w = Result (Ret a) w [].
Proof. reflexivity. Qed.

Lemma raise_run {A} (e : exn) w : (raise e : M A) w = Result (Raise e) w [].
Proof. reflexivity. Qed.

Lemma emit_run ev w : emit ev w = Result (Ret tt) w [ev].
Proof. reflexivity. Qed.

Lemma print_run s w : print s w = Result (Ret tt) w [Print s].
Proof. reflexivity. Qed.

Lemma modify_run f w : modify f w = Result (Ret tt) (f w) [].
Proof. reflexivity. Qed.

Lemma get_world_run w : get_world w = Result (Ret w) w [].
Proof. reflexivity. Qed.

Lemma sys_exit_run {A} code w : (sys_exit code : M A) w = Result (Raise (SystemExit code)) w [].
Proof. reflexivity. Qed.

Lemma run_try_finally {A} (m : M A) (f : M unit) w :
  try_finally m f w =
  Result (match out (f (final (m w))) with Raise e => Raise e | Ret _ => out (m w) end)
         (final (f (final (m w)))) (log (m w) ++ log (f (final (m w)))).
Proof. reflexivity. Qed.

Lemma try_except_ret {A} (m : M A) handles (h : exn -> M A) w a w1 l :
  m w = Result (Ret a) w1 l -> try_except m handles h w = Result (Ret a) w1 l.
Proof. intros H. rewrite run_try_except, H. reflexivity. Qed.

Lemma try_except_caught {A} (m : M A) handles (h : exn -> M A) w e w1 l :
  m w = Result (Raise e) w1 l -> handles e = true ->
  try_except m handles h w = prepend l (h e w1).
Proof. intros H He. rewrite run_try_except, H. cbn [out final log]. by rewrite He. Qed.

Lemma try_except_uncaught {A} (m : M A) handles (h : exn -> M A) w e w1 l :
  m w = Result (Raise e) w1 l -> handles e = false ->
  try_except m handles h w = Result (Raise e) w1 l.
Proof. intros H He. rewrite run_try_except, H. cbn [out final log]. by rewrite He. Qed.

Lemma try_finally_step {A} (m : M A) (f : M unit) w o w1 l w2 l2 :
  m w = Result o w1 l -> f w1 = Result (Ret tt) w2 l2 ->
  try_finally m f w = Result o w2 (l ++ l2).
Proof. intros Hm Hf. rewrite run_try_finally, Hm. cbn [out final log]. by rewrite Hf. Qed.

Lemma collections_exists_run E client n w :
  collections_exists E client n w =
  match schema_fault E OpExists with
  | Some msg => Result (Raise (Exception msg)) w [CollExists n]
  | None => Result (Ret (store_exists n (collections w))) w [CollExists n]
  end.
Proof. unfold collections_exists, service_call. destruct (schema_fault E OpExists); reflexivity. Qed.

Lemma collections_delete_run E client n w :
  collections_delete E client n w =
  match schema_fault E OpDelete with
  | Some msg => Result (Raise (Exception msg)) w [CollDelete n]
  | None => Result (Ret tt) (set_collections (store_delete n (collections w)) w) [CollDelete n]
  end.
Proof. unfold collections_delete, service_call. destruct (schema_fault E OpDelete); reflexivity. Qed.

Lemma collections_create_run E client n props w :
  collections_create E client n props w =
  match schema_fault E OpCreate with
  | Some msg => Result (Raise (Exception msg)) w [CollCreate n props]
  | None =>
      if store_exists n (collections w) then
        Result (Raise (Exception ("collection " +:+ n +:+ " already exists"))) w
               [CollCreate n props]
      else
        Result (Ret n) (set_collections (store_create n props (collections w)) w)
               [CollCreate n props]
  end.
Proof.
  unfold collections_create, service_call.
  destruct (schema_fault E OpCreate).
  - reflexivity.
  - rewrite (bind_step _ _ w w tt [CollCreate n props]) by reflexivity.
    rewrite (bind_step _ _ w w tt []) by reflexivity.
    rewrite (bind_step _ _ w w w []) by reflexivity.
    destruct (store_exists n (collections w)); reflexivity.
Qed.

Lemma joblib_load_run E path w :
  joblib_load E path w =
  match dataset E with
  | Missing =>
      Result (Raise (FileNotFoundError ("No such file or directory: " +:+ path))) w
             [JoblibLoad path]
  | Unreadable msg => Result (Raise (Exception msg)) w [JoblibLoad path]
  | Holds data => Result (Ret data) w [JoblibLoad path]
  end.
Proof. unfold joblib_load. destruct (dataset E); reflexivity. Qed.

Lemma out_prepend {A} l (r : result A) : out (prepend l r) = out r.
Proof. reflexivity. Qed.

Lemma final_prepend {A} l (r : result A) : final (prepend l r) = final r.
Proof. reflexivity. Qed.

Lemma log_prepend {A} l (r : result A) : log (prepend l r) = l ++ log r.
Proof. reflexivity. Qed.

Create Rewrite HintDb run.
#[global] Hint Rewrite @ret_run @raise_run emit_run print_run modify_run get_world_run
  @sys_exit_run @prepend_Result @out_prepend @final_prepend @log_prepend : run.

(** Runs the statements whose results the [run] rewrite rules know. *)
Ltac run :=
  repeat (progress (rewrite ?run_bind; autorewrite with run; cbn [out final log])).

(** ** C1: the collection is replaced *)

Section CreateFacts.
Context (E : env).

Lemma create_bbc_collection_cases client w :
  let r := SetupCollection.create_bbc_collection E client w in
  (r = Result (Ret "bbc_collection") (set_collections (replaced (collections w)) w)
              (create_log (store_exists "bbc_collection" (collections w)))
   /\ forall op, op = OpExists \/ op = OpCreate
                 \/ (op = OpDelete /\ store_exists "bbc_collection" (collections w) = true) ->
                 schema_fault E op = None)
  \/ (exists msg op, out r = Raise (Exception msg) /\ schema_fault E op = Some msg).
Proof.
  cbv zeta. unfold SetupCollection.create_bbc_collection, replaced, without.
  rewrite run_bind, collections_exists_run.
  destruct (schema_fault E OpExists) as [msg |] eqn:Hexists; run.
  { right. exists msg, OpExists. done. }
  destruct (store_exists "bbc_collection" (collections w)) eqn:Hfound.
  - run. rewrite collections_delete_run.
    destruct (schema_fault E OpDelete) as [msg |] eqn:Hdelete; run.
    { right. exists msg, OpDelete. done. }
    rewrite collections_create_run.
    destruct (schema_fault E OpCreate) as [msg |] eqn:Hcreate; run.
    { right. exists msg, OpCreate. done. }
    cbn [collections set_collections]. rewrite store_exists_delete. run.
    left. split; [reflexivity |].
    intros op [-> | [-> | [-> _]]]; assumption.
  - run. rewrite collections_create_run.
    destruct (schema_fault E OpCreate) as [msg |] eqn:Hcreate; run.
    { right. exists msg, OpCreate. done. }
    rewrite Hfound. run.
    left. split; [reflexivity |].
    intros op [-> | [-> | [_ Hcontra]]]; [assumption | assumption | discriminate].
Qed.
End CreateFacts.

Lemma replaced_count (st : store) : store_count "bbc_collection" (replaced st) = 1.
Proof.
  unfold replaced. rewrite store_count_create, store_count_absent; [reflexivity |].
  apply without_absent.
Qed.

Lemma replaced_lookup (st : store) :
  store_lookup "bbc_collection" (replaced st)
  = Some {| schema := SetupCollection.bbc_properties; objects := [] |}.
Proof. unfold replaced. apply store_lookup_create, without_absent. Qed.

Lemma replaced_idempotent (st : store) : replaced (replaced st) = replaced st.
Proof. unfold replaced. by rewrite without_create. Qed.

Lemma create_bbc_collection_ret E client w h :
  out (SetupCollection.create_bbc_collection E client w) = Ret h ->
  SetupCollection.create_bbc_collection E client w
  = Result (Ret "bbc_collection") (set_collections (replaced (collections w)) w)
           (create_log (store_exists "bbc_collection" (collections w))).
Proof.
  intros Hret.
  destruct (create_bbc_collection_cases E client w) as [[Hrun _] | (msg & op & Hraise & _)].
  - exact Hrun.
  - rewrite Hraise in Hret. discriminate.
Qed.

Lemma create_bbc_collection_ok E client w :
  (forall op, schema_fault E op = None) ->
  SetupCollection.create_bbc_collection E client w
  = Result (Ret "bbc_collection") (set_collections (replaced (collections w)) w)
           (create_log (store_exists "bbc_collection" (collections w))).
Proof.
  intros Hok.
  destruct (create_bbc_collection_cases E client w) as [[Hrun _] | (msg & op & _ & Hfault)].
  - exact Hrun.
  - rewrite Hok in Hfault. discriminate.
Qed.

(** C1. Whatever the store holds, once [create_bbc_collection] has returned
    there is exactly one collection named [bbc_collection], and it is a
    new, empty collection whose schema is the seven-property list of the
    call: an earlier collection of that name is gone, schema and objects,
    not merged.  A second call in succession leaves the very same store.
    The calls return whenever the service rejects none of the schema
    operations. *)
Theorem create_bbc_collection_replaces (E : env) (client : nat) (w : world) :
  let r1 := SetupCollection.create_bbc_collection E client w in
  let r2 := SetupCollection.create_bbc_collection E client (final r1) in
  let created := {| schema := SetupCollection.bbc_properties; objects := [] |} in
  ((forall op, schema_fault E op = None) ->
   out r1 = Ret "bbc_collection" /\ out r2 = Ret "bbc_collection")
  /\ (forall h, out r1 = Ret h ->
      store_count "bbc_collection" (collections (final r1)) = 1
      /\ store_lookup "bbc_collection" (collections (final r1)) = Some created
      /\ length (schema created) = 7
      /\ forall h', out r2 = Ret h' ->
           collections (final r2) = collections (final r1)
           /\ store_count "bbc_collection" (collections (final r2)) = 1
           /\ store_lookup "bbc_collection" (collections (final r2)) = Some created).
Proof.
  cbv zeta. split.
  - intros Hok. rewrite !create_bbc_collection_ok by exact Hok. done.
  - intros h Hret. rewrite (create_bbc_collection_ret _ _ _ _ Hret). cbn [final collections set_collections].
    split; [apply replaced_count |]. split; [apply replaced_lookup |]. split; [reflexivity |].
    intros h' Hret'.
    rewrite (create_bbc_collection_ret _ _ _ _ Hret'). cbn [final collections set_collections].
    rewrite replaced_idempotent.
    split; [reflexivity |]. split; [apply replaced_count | apply replaced_lookup].
Qed.

Lemma create_bbc_collection_replaces_witness :
  out (SetupCollection.create_bbc_collection (healthy_env []) 0 legacy_world)
  = Ret "bbc_collection"
  /\ store_count "bbc_collection"
       (collections (final (SetupCollection.create_bbc_collection (healthy_env []) 0
                              legacy_world))) = 1.
Proof.
  split; [vm_compute; reflexivity |].
  apply (proj2 (create_bbc_collection_replaces (healthy_env []) 0 legacy_world)
           "bbc_collection").
  vm_compute; reflexivity.
Defined.

(** ** Code that leaves the client sessions alone *)

Lemma inert_ret {A} (a : A) : inert (mret a).
Proof. intros w. cbn. repeat split; [constructor | discriminate]. Qed.

Lemma inert_raise {A} (e : exn) : is_Exception e = true -> inert (raise e : M A).
Proof. intros He w. cbn. repeat split; [constructor | congruence]. Qed.

Lemma inert_emit ev : session_event ev = false -> inert (emit ev).
Proof. intros Hev w. cbn. repeat split; [by repeat constructor | discriminate]. Qed.

Lemma inert_print s : inert (print s).
Proof. by apply inert_emit. Qed.

Lemma inert_get_world : inert get_world.
Proof. intros w. cbn. repeat split; [constructor | discriminate]. Qed.

Lemma inert_modify (f : world -> world) :
  (forall w, bindings (f w) = bindings w /\ sessions (f w) = sessions w
             /\ next_session (f w) = next_session w) ->
  inert (modify f).
Proof.
  intros Hf w. destruct (Hf w) as (? & ? & ?). cbn.
  repeat split; [done | done | done | constructor | discriminate].
Qed.

Lemma inert_bind {A B} (m : M A) (f : A -> M B) :
  inert m -> (forall a, inert (f a)) -> inert (m ≫= f).
Proof.
  intros Hm Hf w. rewrite run_bind.
  destruct (Hm w) as (Hb & Hs & Hn & Hl & He).
  destruct (out (m w)) as [a | e] eqn:Hout.
  - destruct (Hf a (final (m w))) as (Hb' & Hs' & Hn' & Hl' & He').
    cbn [prepend out final log].
    repeat split; [congruence | congruence | congruence | by apply Forall_app | exact He'].
  - cbn [out final log]. repeat split; [done | done | done | done |].
    intros e' [= <-]. by apply He.
Qed.

Lemma inert_try_except {A} (m : M A) handles (h : exn -> M A) :
  inert m -> (forall e, is_Exception e = true -> inert (h e)) ->
  inert (try_except m handles h).
Proof.
  intros Hm Hh w. rewrite run_try_except.
  destruct (Hm w) as (Hb & Hs & Hn & Hl & He).
  destruct (out (m w)) as [a | e] eqn:Hout.
  - by rewrite Hout.
  - destruct (handles e).
    + destruct (Hh e (He e eq_refl) (final (m w))) as (Hb' & Hs' & Hn' & Hl' & He').
      cbn [prepend out final log].
      repeat split; [congruence | congruence | congruence | by apply Forall_app | exact He'].
    + repeat split; [done | done | done | done |]. rewrite Hout. intros e' [= <-]. by apply He.
Qed.

Create HintDb inert.
#[global] Hint Resolve inert_ret inert_print inert_get_world inert_raise : inert.

(** Splits a program along its statements and closes what the hint base
    knows to be inert. *)
Ltac inert_steps :=
  repeat match goal with
         | |- inert (_ ≫= _) => apply inert_bind; [| intros ?]
         | |- inert (try_except _ _ _) => apply inert_try_except; [| intros ? ?]
         | |- inert (if ?b then _ else _) => destruct b
         | |- inert (match ?x with _ => _ end) => destruct x eqn:?
         | |- inert (emit _) => by apply inert_emit
         | |- inert (raise (Exception _)) => by apply inert_raise
         | |- inert (raise (FileNotFoundError _)) => by apply inert_raise
         | |- inert (modify _) => apply inert_modify; by intros []
         | |- inert _ => solve [eauto with inert]
         end.

Section InertCode.
Context (E : env).

Lemma inert_time_time : inert time_time.
Proof. intros w. cbn. repeat split; [constructor | discriminate]. Qed.

Lemma inert_time_sleep d : inert (time_sleep d).
Proof. unfold time_sleep. inert_steps. Qed.

Lemma inert_requests_get url t : inert (requests_get E url t).
Proof.
  intros w. unfold requests_get.
  destruct (decide _); [| destruct (answer E (requests w))]; cbn;
    repeat split; try (by repeat constructor); try discriminate; by intros e [= <-].
Qed.

Lemma inert_attempt ready_msg url : inert (attempt E ready_msg url).
Proof. unfold attempt. pose proof inert_requests_get. inert_steps. Qed.

Lemma inert_wait_loop ready_msg waiting_msg fuel url timeout start_time :
  inert (wait_loop E ready_msg waiting_msg fuel url timeout start_time).
Proof.
  induction fuel as [| fuel IH]; [apply inert_ret |].
  rewrite wait_loop_S.
  pose proof inert_time_time. pose proof inert_attempt. pose proof inert_time_sleep.
  inert_steps.
Qed.

Lemma inert_wait_for_weaviate_with ready_msg waiting_msg url timeout :
  inert (wait_for_weaviate_with E ready_msg waiting_msg url timeout).
Proof.
  unfold wait_for_weaviate_with.
  pose proof inert_time_time. pose proof inert_wait_loop. inert_steps.
Qed.

Lemma inert_service_call op : inert (service_call E op).
Proof. unfold service_call. inert_steps. Qed.

Lemma inert_create_bbc_collection client :
  inert (SetupCollection.create_bbc_collection E client).
Proof.
  unfold SetupCollection.create_bbc_collection, collections_exists, collections_delete,
    collections_create.
  pose proof inert_service_call. inert_steps.
Qed.

Lemma inert_joblib_load path : inert (joblib_load E path).
Proof. unfold joblib_load. inert_steps. Qed.

Lemma inert_flush coll : inert (flush E coll).
Proof. unfold flush. inert_steps. Qed.

Lemma inert_add_object coll o : inert (add_object E coll o).
Proof. unfold add_object. pose proof inert_flush. inert_steps. Qed.

Lemma inert_insert_loop batch total data_objects :
  forall i, inert (SetupCollection.insert_loop E batch total i data_objects).
Proof.
  induction data_objects as [| o rest IH]; intros i; cbn [SetupCollection.insert_loop].
  - apply inert_ret.
  - pose proof inert_add_object. inert_steps.
Qed.

Lemma inert_with_batch coll body : inert body -> inert (with_batch E coll body).
Proof.
  intros Hbody. unfold with_batch, batch_abort, batch_exit.
  pose proof inert_flush. inert_steps.
Qed.

Lemma inert_load_data_to_collection client coll :
  inert (SetupCollection.load_data_to_collection E client coll).
Proof.
  unfold SetupCollection.load_data_to_collection.
  pose proof inert_joblib_load. pose proof inert_with_batch. pose proof inert_insert_loop.
  inert_steps.
Qed.
End InertCode.

(** ** Objects in the store *)

Lemma add_objects_nil c : add_objects [] c = c.
Proof. destruct c. unfold add_objects; cbn. by rewrite app_nil_r. Qed.

Lemma add_objects_app a b c : add_objects b (add_objects a c) = add_objects (a ++ b) c.
Proof. unfold add_objects; cbn. by rewrite app_assoc. Qed.

Lemma store_add_nil n (st : store) : store_add n [] st = st.
Proof.
  unfold store_add. induction st as [| [n' c] st IH]; [reflexivity |].
  rewrite fmap_cons, IH. destruct (decide _); [| reflexivity].
  cbn. by rewrite add_objects_nil.
Qed.

Lemma store_add_app n a b (st : store) :
  store_add n b (store_add n a st) = store_add n (a ++ b) st.
Proof.
  unfold store_add. induction st as [| [n' c] st IH]; [reflexivity |].
  rewrite !fmap_cons, IH. f_equal.
  destruct (decide (named n (n', c))) as [Hc | Hc].
  - rewrite decide_True by exact Hc. cbn. by rewrite add_objects_app.
  - by rewrite decide_False by exact Hc.
Qed.

Lemma store_lookup_add n objs (st : store) :
  store_lookup n (store_add n objs st) = add_objects objs <$> store_lookup n st.
Proof.
  unfold store_lookup, store_add. induction st as [| [n' c] st IH]; [reflexivity |].
  rewrite fmap_cons, !filter_cons.
  destruct (decide (named n (n', c))) as [Hc | Hc].
  - rewrite decide_True by exact Hc. reflexivity.
  - rewrite decide_False by exact Hc. exact IH.
Qed.

Lemma object_count_add n objs (st : store) c :
  store_lookup n st = Some c ->
  object_count n (store_add n objs st) = object_count n st + length objs.
Proof.
  intros Hc. unfold object_count. rewrite store_lookup_add, Hc. cbn. apply length_app.
Qed.

(** ** The batch session and the load *)

Section LoadFacts.
Context (E : env).

Lemma accepted_app a b : accepted E (a ++ b) = accepted E a ++ accepted E b.
Proof. apply filter_app. Qed.

Lemma flush_run coll w : flush E coll w = Result (Ret tt) (flushed E coll w) [].
Proof. reflexivity. Qed.

Lemma add_object_run coll o w :
  add_object E coll o w =
  match add_fault E (submitted w) with
  | Some msg => Result (Raise (Exception msg)) w [AddObject o]
  | None => Result (Ret tt) (absorb E coll o w) [AddObject o]
  end.
Proof.
  unfold add_object, absorb. run.
  destruct (add_fault E (submitted w)); run; [reflexivity |].
  cbn [buffer set_batch]. destruct (decide _); run; [rewrite flush_run |]; reflexivity.
Qed.

Lemma settle_flushed coll w : settle E coll (flushed E coll w) = settle E coll w.
Proof. unfold settle, flushed; cbn. apply store_add_nil. Qed.

Lemma settle_absorb coll o w :
  settle E coll (absorb E coll o w) = store_add coll (accepted E [o]) (settle E coll w).
Proof.
  unfold absorb. cbv zeta. destruct (decide _).
  - rewrite settle_flushed. unfold settle; cbn [buffer collections set_batch].
    by rewrite store_add_app, accepted_app.
  - unfold settle; cbn [buffer collections set_batch].
    by rewrite store_add_app, accepted_app.
Qed.

Lemma insert_loop_ret coll total data_objects :
  forall i w,
    out (SetupCollection.insert_loop E coll total i data_objects w) = Ret tt ->
    log (SetupCollection.insert_loop E coll total i data_objects w)
    = insert_log total i data_objects
    /\ settle E coll (final (SetupCollection.insert_loop E coll total i data_objects w))
       = store_add coll (accepted E data_objects) (settle E coll w).
Proof.
  induction data_objects as [| o rest IH]; intros i w.
  - intros _. cbn. split; [reflexivity |]. by rewrite store_add_nil.
  - cbn [SetupCollection.insert_loop insert_log].
    rewrite run_bind, add_object_run.
    destruct (add_fault E (submitted w)); [discriminate |]. run.
    replace (i + 1) with (S i) by lia. unfold report_after.
    destruct (decide (S i mod 100 = 0)); run; intros Hret;
      destruct (IH (S i) (absorb E coll o w) Hret) as [Hlog Hstore];
      rewrite Hlog, Hstore, settle_absorb, store_add_app;
      change (o :: rest) with ([o] ++ rest); by rewrite accepted_app.
Qed.

Lemma with_batch_ret coll total data_objects w :
  let r := with_batch E coll (SetupCollection.insert_loop E coll total 0 data_objects) w in
  out r = Ret tt ->
  log r = BatchEnter coll :: insert_log total 0 data_objects ++ [BatchExit]
  /\ collections (final r) = store_add coll (accepted E data_objects) (collections w).
Proof.
  cbv zeta. unfold with_batch. run. rewrite run_try_except.
  set (w1 := set_batch [] 0 w).
  destruct (out (SetupCollection.insert_loop E coll total 0 data_objects w1)) as [[] | e] eqn:Hbody.
  - destruct (insert_loop_ret coll total data_objects 0 w1 Hbody) as [Hlog Hstore].
    rewrite Hbody. unfold batch_exit. run. rewrite flush_run. run.
    destruct (exit_fault E); run; [discriminate |]. intros _.
    rewrite Hlog. split; [reflexivity |].
    cbn [flushed final collections set_batch set_collections]. rewrite Hstore.
    unfold settle, w1, accepted. cbn [buffer collections set_batch].
    by rewrite filter_nil, store_add_nil.
  - cbn [is_Exception]. unfold batch_abort. run. discriminate.
Qed.
End LoadFacts.

Section LoadCases.
Context (E : env) (client : nat) (coll : string).

Lemma load_missing w :
  dataset E = Missing ->
  SetupCollection.load_data_to_collection E client coll w
  = Result (Ret false) w
           [ Print "📂 Loading BBC data...";
             JoblibLoad "data/bbc_data.joblib";
             Print "❌ Error: data/bbc_data.joblib not found!";
             Print "Make sure the data file exists in the data/ directory" ].
Proof.
  intros Hmissing. unfold SetupCollection.load_data_to_collection. run.
  match goal with
  | |- context [try_except ?m _ _ w] =>
      assert (m w = Result (Raise (FileNotFoundError
                                     ("No such file or directory: " +:+ "data/bbc_data.joblib")))
                           w [JoblibLoad "data/bbc_data.joblib"]) as Hblock
  end.
  { rewrite run_bind, joblib_load_run, Hmissing. reflexivity. }
  rewrite (try_except_caught _ _ _ _ _ _ _ Hblock eq_refl). run. reflexivity.
Qed.

Lemma load_unreadable w msg :
  dataset E = Unreadable msg ->
  SetupCollection.load_data_to_collection E client coll w
  = Result (Raise (Exception msg)) w
           [ Print "📂 Loading BBC data..."; JoblibLoad "data/bbc_data.joblib" ].
Proof.
  intros Hfile. unfold SetupCollection.load_data_to_collection. run.
  match goal with
  | |- context [try_except ?m _ _ w] =>
      assert (m w = Result (Raise (Exception msg)) w [JoblibLoad "data/bbc_data.joblib"])
        as Hblock
  end.
  { rewrite run_bind, joblib_load_run, Hfile. reflexivity. }
  rewrite (try_except_uncaught _ _ _ _ _ _ _ Hblock eq_refl). run. reflexivity.
Qed.

(** A load that returns [True] found the dataset, submitted every object
    and left the batch block normally. *)
Lemma load_ret_true w :
  let r := SetupCollection.load_data_to_collection E client coll w in
  out r = Ret true ->
  exists data,
    dataset E = Holds data
    /\ log r = load_header (length data)
               ++ BatchEnter coll
                  :: insert_log (length data) 0 (SetupCollection.data_object_of <$> data)
               ++ [BatchExit; Print (SetupCollection.loaded_msg (length data))]
    /\ collections (final r)
       = store_add coll (accepted E (SetupCollection.data_object_of <$> data)) (collections w).
Proof.
  cbv zeta.
  destruct (dataset E) as [| msg | data] eqn:Hfile.
  { rewrite load_missing by exact Hfile. discriminate. }
  { rewrite (load_unreadable w msg) by exact Hfile. discriminate. }
  unfold SetupCollection.load_data_to_collection. run.
  match goal with
  | |- context [try_except ?m _ _ w] =>
      assert (m w = Result (Ret (Some data)) w
                           [JoblibLoad "data/bbc_data.joblib";
                            Print ("📊 Found " +:+ pretty (length data) +:+ " data items")])
        as Hblock
  end.
  { rewrite run_bind, joblib_load_run, Hfile. run. reflexivity. }
  rewrite (try_except_ret _ _ _ _ _ _ _ Hblock). run.
  rewrite length_fmap.
  set (objs := SetupCollection.data_object_of <$> data).
  pose proof (with_batch_ret E coll (length data) objs w) as Hbatch. cbv zeta in Hbatch.
  destruct (with_batch E coll (SetupCollection.insert_loop E coll (length data) 0 objs) w)
    as [o w' l] eqn:Hrun.
  destruct o as [[] | e].
  - destruct (Hbatch eq_refl) as [Hlog Hstore]. cbn [log final] in Hlog, Hstore.
    erewrite try_except_ret; [| rewrite run_bind, Hrun; run; reflexivity].
    run. intros _. exists data. split; [reflexivity |]. split; [| exact Hstore].
    rewrite Hlog. unfold load_header. cbn [app]. by rewrite <- !app_assoc.
  - destruct (is_Exception e) eqn:He.
    + erewrite try_except_caught; [| rewrite run_bind, Hrun; reflexivity | exact He].
      run. discriminate.
    + erewrite try_except_uncaught; [| rewrite run_bind, Hrun; reflexivity | exact He].
      run. discriminate.
Qed.
End LoadCases.

(** ** C4: a missing dataset file *)

(** C4. When the dataset file is absent, [load_data_to_collection] returns
    [False] having only tried to load the file and printed the error: no
    batch session is entered, no object is submitted, and the world, the
    store and the object count of every collection with it, is the one it
    started from. *)
Theorem load_missing_dataset (E : env) (client : nat) (coll : string) (w : world) :
  dataset E = Missing ->
  let r := SetupCollection.load_data_to_collection E client coll w in
  out r = Ret false
  /\ final r = w
  /\ log r = [ Print "📂 Loading BBC data...";
               JoblibLoad "data/bbc_data.joblib";
               Print "❌ Error: data/bbc_data.joblib not found!";
               Print "Make sure the data file exists in the data/ directory" ]
  /\ submissions (log r) = []
  /\ (forall n, BatchEnter n ∉ log r)
  /\ (forall n, object_count n (collections (final r)) = object_count n (collections w)).
Proof.
  intros Hmissing. cbv zeta. rewrite (load_missing E client coll w Hmissing).
  cbn [out final log]. repeat split.
  intros n Hin. repeat (apply elem_of_cons in Hin as [Heq | Hin]; [discriminate Heq |]).
  by apply elem_of_nil in Hin.
Qed.

Lemma load_missing_dataset_witness :
  dataset starting_env = Missing
  /\ out (SetupCollection.load_data_to_collection starting_env 0 "bbc_collection" legacy_world)
     = Ret false
  /\ final (SetupCollection.load_data_to_collection starting_env 0 "bbc_collection" legacy_world)
     = legacy_world.
Proof.
  split; [reflexivity |].
  pose proof (load_missing_dataset starting_env 0 "bbc_collection" legacy_world eq_refl) as H.
  cbv zeta in H. destruct H as (Hout & Hfinal & _). split; [exact Hout | exact Hfinal].
Defined.

(** ** C6: progress reports *)

Lemma insert_log_app total a :
  forall i b,
    insert_log total i (a ++ b) = insert_log total i a ++ insert_log total (i + length a) b.
Proof.
  induction a as [| o a IH]; intros i b; cbn [insert_log app length].
  - by rewrite Nat.add_0_r.
  - rewrite IH, <- app_assoc. by replace (S i + length a) with (i + S (length a)) by lia.
Qed.

Lemma insert_log_quiet total a :
  forall i,
    (forall k, i < k <= i + length a -> k mod 100 <> 0) ->
    insert_log total i a = AddObject <$> a.
Proof.
  induction a as [| o a IH]; intros i Hquiet; [reflexivity |].
  cbn [insert_log]. unfold report_after.
  rewrite decide_False by (apply Hquiet; cbn [length]; lia).
  rewrite fmap_cons. cbn [app]. f_equal. apply IH.
  intros k Hk. apply Hquiet. cbn [length]. lia.
Qed.

Lemma insert_log_block total a i :
  length a = 100 -> i mod 100 = 0 ->
  insert_log total i a
  = (AddObject <$> a) ++ [Print (SetupCollection.progress_msg (i + 100) total)].
Proof.
  intros Hlen Hi.
  assert (length (take 99 a) = 99) as Htake by (rewrite length_take; lia).
  assert (length (drop 99 a) = 1) as Hdrop by (rewrite length_drop; lia).
  destruct (drop 99 a) as [| o [| ? ?]] eqn:Hlast; try discriminate.
  rewrite <- (take_drop 99 a), Hlast.
  rewrite insert_log_app, fmap_app, Htake, <- app_assoc. f_equal.
  - apply insert_log_quiet. intros k Hk. rewrite Htake in Hk.
    pose proof (Nat.div_mod_eq i 100). pose proof (Nat.div_mod_eq k 100).
    pose proof (Nat.mod_upper_bound k 100 ltac:(lia)). nia.
  - cbn [insert_log fmap list_fmap app]. unfold report_after.
    replace (S (i + 99)) with (i + 100) by lia.
    rewrite decide_True; [reflexivity |].
    by rewrite <- Nat.Div0.add_mod_idemp_l, Hi.
Qed.

Lemma insert_log_250 total (objs : list data_object) :
  length objs = 250 ->
  insert_log total 0 objs
  = (AddObject <$> take 100 objs)
    ++ [Print (SetupCollection.progress_msg 100 total)]
    ++ (AddObject <$> take 100 (drop 100 objs))
    ++ [Print (SetupCollection.progress_msg 200 total)]
    ++ (AddObject <$> drop 200 objs).
Proof.
  intros Hlen.
  rewrite <- (take_drop 100 objs) at 1.
  rewrite <- (take_drop 100 (drop 100 objs)) at 1.
  rewrite drop_drop. change (100 + 100) with 200.
  assert (length (take 100 objs) = 100) as H1 by (rewrite length_take; lia).
  assert (length (take 100 (drop 100 objs)) = 100) as H2
    by (rewrite length_take, length_drop; lia).
  assert (length (drop 200 objs) = 50) as H3 by (rewrite length_drop; lia).
  rewrite !insert_log_app, H1, H2.
  rewrite (insert_log_block total (take 100 objs) 0 H1 eq_refl).
  rewrite (insert_log_block total (take 100 (drop 100 objs)) (0 + 100) H2 eq_refl).
  rewrite (insert_log_quiet total (drop 200 objs) (0 + 100 + 100)).
  - cbn [Nat.add]. by rewrite <- !app_assoc.
  - intros k Hk. rewrite H3 in Hk. cbn [Nat.add] in Hk.
    pose proof (Nat.div_mod_eq k 100).
    pose proof (Nat.mod_upper_bound k 100 ltac:(lia)). nia.
Qed.

Lemma insert_log_imap total (objs : list data_object) :
  forall i,
    insert_log total i objs
    = mjoin (imap (fun j o => AddObject o :: report_after total (i + j + 1)) objs).
Proof.
  induction objs as [| o objs IH]; intros i; [reflexivity |].
  cbn [insert_log]. rewrite imap_cons. cbn [mjoin list_join].
  replace (i + 0 + 1) with (S i) by lia.
  cbn [app]. f_equal. f_equal. rewrite IH. f_equal.
  apply imap_ext. intros j o' _. cbn. do 2 f_equal. lia.
Qed.

(** C6. A load that returns [True] logs, between entering and leaving the
    batch block, every object in input order, the k-th submission being
    followed by a progress report exactly when k is a multiple of 100 (k
    counts from 1, so it is positive); the completion report comes last.
    For 250 records these are exactly two reports: one after the 100th
    submission, one after the 200th, both before the completion report. *)
Theorem load_progress_reports (E : env) (client : nat) (coll : string) (w : world) :
  let r := SetupCollection.load_data_to_collection E client coll w in
  out r = Ret true ->
  exists data,
    let objs := SetupCollection.data_object_of <$> data in
    let total := length data in
    dataset E = Holds data
    /\ log r = load_header total
               ++ BatchEnter coll
                  :: mjoin (imap (fun j o => AddObject o :: report_after total (j + 1)) objs)
               ++ [BatchExit; Print (SetupCollection.loaded_msg total)]
    /\ (forall k, report_after total k
                  = if decide (k mod 100 = 0)
                    then [Print (SetupCollection.progress_msg k total)] else [])
    /\ (total = 250 ->
        log r = load_header 250
                ++ BatchEnter coll
                   :: (AddObject <$> take 100 objs)
                ++ [Print (SetupCollection.progress_msg 100 250)]
                ++ (AddObject <$> take 100 (drop 100 objs))
                ++ [Print (SetupCollection.progress_msg 200 250)]
                ++ (AddObject <$> drop 200 objs)
                ++ [BatchExit; Print (SetupCollection.loaded_msg 250)]).
Proof.
  cbv zeta. intros Hret.
  destruct (load_ret_true E client coll w Hret) as (data & Hfile & Hlog & _).
  exists data. split; [exact Hfile |]. split; [| split; [reflexivity |]].
  - rewrite Hlog, insert_log_imap. reflexivity.
  - intros Htotal. rewrite Hlog, Htotal.
    rewrite (insert_log_250 250 (SetupCollection.data_object_of <$> data))
      by (by rewrite length_fmap).
    rewrite <- !app_assoc. reflexivity.
Qed.

Lemma load_progress_reports_witness :
  let data := replicate 250 sample_record in
  let objs := SetupCollection.data_object_of <$> data in
  let r := SetupCollection.load_data_to_collection (healthy_env data) 0 "bbc_collection"
             ready_world in
  out r = Ret true
  /\ log r = load_header 250
             ++ BatchEnter "bbc_collection"
                :: (AddObject <$> take 100 objs)
             ++ [Print (SetupCollection.progress_msg 100 250)]
             ++ (AddObject <$> take 100 (drop 100 objs))
             ++ [Print (SetupCollection.progress_msg 200 250)]
             ++ (AddObject <$> drop 200 objs)
             ++ [BatchExit; Print (SetupCollection.loaded_msg 250)].
Proof.
  cbv zeta.
  assert (out (SetupCollection.load_data_to_collection
                 (healthy_env (replicate 250 sample_record)) 0 "bbc_collection" ready_world)
          = Ret true) as Hret by (vm_compute; reflexivity).
  split; [exact Hret |].
  destruct (load_progress_reports _ _ _ _ Hret) as (data & Hfile & _ & _ & H250).
  cbn [dataset healthy_env] in Hfile. injection Hfile as <-.
  apply H250. reflexivity.
Defined.

(** ** C2: one submission per record *)

Lemma submissions_app l1 l2 : submissions (l1 ++ l2) = submissions l1 ++ submissions l2.
Proof. apply omap_app. Qed.

Lemma submissions_insert_log total objs : forall i, submissions (insert_log total i objs) = objs.
Proof.
  induction objs as [| o objs IH]; intros i; [reflexivity |].
  cbn [insert_log]. change (AddObject o :: ?l) with ([AddObject o] ++ l).
  rewrite !submissions_app, IH. unfold report_after. by destruct (decide _).
Qed.

Lemma accepted_all E (objs : list data_object) :
  Forall (fun o => accepts E o = true) objs -> accepted E objs = objs.
Proof.
  unfold accepted. induction 1 as [| o objs Ho _ IH]; [reflexivity |].
  by rewrite filter_cons, decide_True, IH by exact Ho.
Qed.

(** C2, as stated, fails: the dataset holds one record whose [chunk_index]
    is text; [item.get] passes the value on as it is, the service refuses
    the object (the schema declares an integer) and the batch session
    records that without raising, which [load_data_to_collection] never looks
    at; the load returns [True] and the collection holds no object, not
    one. *)
Lemma load_count_below_input_length :
  let data := [mistyped_record] in
  let r := SetupCollection.load_data_to_collection (healthy_env data) 0 "bbc_collection"
             ready_world in
  out r = Ret true
  /\ submissions (log r) = SetupCollection.data_object_of <$> data
  /\ object_count "bbc_collection" (collections (final r)) = 0
  /\ object_count "bbc_collection" (collections (final r)) <> length data.
Proof.
  cbv zeta. split; [vm_compute; reflexivity |]. split; [vm_compute; reflexivity |].
  assert (object_count "bbc_collection"
            (collections (final (SetupCollection.load_data_to_collection
                                   (healthy_env [mistyped_record]) 0 "bbc_collection"
                                   ready_world))) = 0) as ->
    by (vm_compute; reflexivity).
  split; [reflexivity | discriminate].
Qed.

(** C2, amended. A load that returns [True] has submitted exactly one object
    per input record, the object built from the record, in input order; the
    collection grows by those of the submitted objects that the service
    accepts, so its object count grows by the input length when the service
    rejects none of them. *)
Theorem load_submits_every_record (E : env) (client : nat) (coll : string) (w : world) :
  let r := SetupCollection.load_data_to_collection E client coll w in
  out r = Ret true ->
  exists data,
    let objs := SetupCollection.data_object_of <$> data in
    dataset E = Holds data
    /\ submissions (log r) = objs
    /\ length (submissions (log r)) = length data
    /\ collections (final r) = store_add coll (accepted E objs) (collections w)
    /\ forall c, store_lookup coll (collections w) = Some c ->
         object_count coll (collections (final r))
         = object_count coll (collections w) + length (accepted E objs)
         /\ (Forall (fun o => accepts E o = true) objs ->
             object_count coll (collections (final r))
             = object_count coll (collections w) + length data).
Proof.
  cbv zeta. intros Hret.
  destruct (load_ret_true E client coll w Hret) as (data & Hfile & Hlog & Hstore).
  exists data. split; [exact Hfile |].
  assert (submissions (log (SetupCollection.load_data_to_collection E client coll w))
          = SetupCollection.data_object_of <$> data) as Hsub.
  { rewrite Hlog. change (BatchEnter coll :: ?l) with ([BatchEnter coll] ++ l).
    rewrite !submissions_app, submissions_insert_log.
    change (submissions (load_header (length data))) with (@nil data_object).
    cbn [submissions omap list_omap app]. apply app_nil_r. }
  split; [exact Hsub |]. split; [by rewrite Hsub, length_fmap |].
  split; [exact Hstore |].
  intros c Hc. rewrite Hstore. split.
  - by apply object_count_add with c.
  - intros Hall. rewrite (object_count_add _ _ _ c Hc), accepted_all by exact Hall.
    by rewrite length_fmap.
Qed.

Lemma load_submits_every_record_witness :
  let data := [sample_record; sample_record; sample_record] in
  let r := SetupCollection.load_data_to_collection (healthy_env data) 0 "bbc_collection"
             ready_world in
  out r = Ret true
  /\ submissions (log r) = SetupCollection.data_object_of <$> data
  /\ object_count "bbc_collection" (collections (final r)) = 3.
Proof.
  cbv zeta.
  assert (out (SetupCollection.load_data_to_collection
                 (healthy_env [sample_record; sample_record; sample_record]) 0
                 "bbc_collection" ready_world)
          = Ret true) as Hret by (vm_compute; reflexivity).
  split; [exact Hret |].
  destruct (load_submits_every_record _ _ _ _ Hret) as (data & Hfile & Hsub & _ & _ & Hcount).
  cbn [dataset healthy_env] in Hfile. injection Hfile as <-.
  split; [exact Hsub |].
  destruct (Hcount {| schema := SetupCollection.bbc_properties; objects := [] |} eq_refl)
    as [_ Hall].
  rewrite Hall; [reflexivity |].
  repeat constructor.
Defined.

(** ** The runs of [main] *)

Lemma connect_to_local_run E host port grpc_port w :
  connect_to_local E host port grpc_port w =
  match connect_fault E with
  | Some msg => Result (Raise (Exception msg)) w []
  | None =>
      Result (Ret (next_session w))
             (set_sessions (next_session w :: sessions w) (S (next_session w)) w)
             [Connect (next_session w)]
  end.
Proof. unfold connect_to_local. destruct (connect_fault E); reflexivity. Qed.

Lemma release_client_run w :
  SetupCollection.release_client w =
  match bindings w !! "client" with
  | Some h => Result (Ret tt) (closed h w) [Close h]
  | None => Result (Ret tt) w []
  end.
Proof.
  unfold SetupCollection.release_client. rewrite run_bind, get_world_run. cbn [out final log].
  destruct (bindings w !! "client"); reflexivity.
Qed.

Lemma wait_returns E w :
  exists b w1 l1,
    SetupCollection.wait_for_weaviate E default_url default_timeout w = Result (Ret b) w1 l1.
Proof.
  unfold SetupCollection.wait_for_weaviate.
  destruct (wait_for_weaviate_with_spec E "✅ Weaviate is ready!" "⏳ Waiting for Weaviate to start..." default_url default_timeout w)
    as (b & n & t & Hrun & _).
  eauto.
Qed.

Lemma handler_run (e : exn) w :
  (print ("❌ Error connecting to Weaviate: " +:+ str_exn e);;
   print "Make sure Weaviate is running with: docker-compose up -d";;
   sys_exit 1 : M unit) w
  = Result (Raise (SystemExit 1)) w (connect_error e).
Proof. reflexivity. Qed.

(** Closes a goal [main_path E w r] from a path [P] whose result is [r]
    up to the grouping of the log. *)
Ltac by_path P :=
  match type of P with
  | main_path _ _ ?r =>
      match goal with
      | |- main_path _ _ ?r' => replace r' with r; [exact P |]
      end
  end;
  unfold main_prelude, connect_error, completed; autorewrite with run;
  f_equal; cbn [app]; rewrite <- ?app_assoc; try reflexivity.

Lemma main_paths E w : main_path E w (SetupCollection.main E w).
Proof.
  unfold SetupCollection.main.
  erewrite bind_step by reflexivity.
  erewrite bind_step by reflexivity.
  erewrite bind_step by reflexivity.
  change (set_bindings ∅ w) with (started w).
  destruct (wait_returns E (started w)) as (b & w1 & l1 & Hwait).
  assert (bindings w1 = ∅) as Hunbound.
  { pose proof (inert_wait_for_weaviate_with E "✅ Weaviate is ready!"
                  "⏳ Waiting for Weaviate to start..." default_url default_timeout (started w))
      as (Hb & _).
    unfold SetupCollection.wait_for_weaviate in Hwait. rewrite Hwait in Hb. exact Hb. }
  rewrite (bind_step _ _ _ _ _ _ Hwait).
  destruct b; cbn [negb].
  2: { (* the service never became ready *)
    pose proof (path_not_ready E w _ _ Hwait) as P.
    erewrite bind_stop by reflexivity.
    by_path P. }
  erewrite bind_step by reflexivity.
  match goal with
  | |- context [try_finally (try_except ?body ?handles ?handler) _ _] =>
      set (guarded := try_except body handles handler)
  end.
  destruct (connect_fault E) as [msg |] eqn:Hconnect.
  { (* the connection is refused *)
    pose proof (path_connect_failed E w _ _ msg Hwait Hconnect) as P.
    assert (guarded w1 = Result (Raise (SystemExit 1)) w1 (connect_error (Exception msg)))
      as Hguarded.
    { unfold guarded.
      match goal with
      | |- try_except ?body _ _ _ = _ =>
          assert (body w1 = Result (Raise (Exception msg)) w1 []) as Hbody
            by (rewrite run_bind, connect_to_local_run, Hconnect; reflexivity)
      end.
      rewrite (try_except_caught _ _ _ _ _ _ _ Hbody eq_refl), handler_run. reflexivity. }
    erewrite try_finally_step; [| exact Hguarded |].
    2: { rewrite release_client_run, Hunbound. reflexivity. }
    by_path P. }
  set (h := next_session w1).
  destruct (SetupCollection.create_bbc_collection E h (connected h w1)) as [o3 w3 l3] eqn:Hcreate.
  pose proof (inert_create_bbc_collection E h (connected h w1)) as (Hbind3 & _ & _ & _ & Hexn3).
  rewrite Hcreate in Hbind3, Hexn3. cbn [out final log] in Hbind3, Hexn3.
  assert (bindings w3 !! "client" = Some h) as Hclient3.
  { rewrite Hbind3. unfold connected. cbn [bindings set_bindings]. apply lookup_insert_eq. }
  assert (forall (k : nat -> M unit) ,
            (connect_to_local E "localhost" 8080 50051 ≫= k) w1
            = prepend [Connect h] (k h (set_sessions (h :: sessions w1) (S h) w1))) as Hconnected.
  { intros k. rewrite run_bind, connect_to_local_run, Hconnect. reflexivity. }
  destruct o3 as [coll | e].
  2: { (* the creation of the collection raised *)
    pose proof (path_create_failed E w _ _ h e _ _ Hwait Hconnect eq_refl Hcreate) as P.
    assert (guarded w1 = Result (Raise (SystemExit 1)) w3
                           ([Connect h; Print "✅ Connected to Weaviate!"] ++ l3
                            ++ connect_error e)) as Hguarded.
    { unfold guarded.
      match goal with
      | |- try_except ?body _ _ _ = _ =>
          assert (body w1 = Result (Raise e) w3
                              ([Connect h; Print "✅ Connected to Weaviate!"] ++ l3)) as Hbody
      end.
      { rewrite Hconnected.
        erewrite bind_step by reflexivity. erewrite bind_step by reflexivity.
        erewrite bind_stop by exact Hcreate. reflexivity. }
      rewrite (try_except_caught _ _ _ _ _ _ _ Hbody (Hexn3 e eq_refl)), handler_run.
      rewrite prepend_Result. by rewrite <- app_assoc. }
    erewrite try_finally_step; [| exact Hguarded |].
    2: { rewrite release_client_run, Hclient3. reflexivity. }
    by_path P. }
  destruct (SetupCollection.load_data_to_collection E h coll w3) as [o4 w4 l4] eqn:Hload.
  pose proof (inert_load_data_to_collection E h coll w3) as (Hbind4 & _ & _ & _ & Hexn4).
  rewrite Hload in Hbind4, Hexn4. cbn [out final log] in Hbind4, Hexn4.
  assert (bindings w4 !! "client" = Some h) as Hclient4 by (by rewrite Hbind4).
  assert (forall (k : bool -> M unit),
            (connect_to_local E "localhost" 8080 50051
             ≫= λ client : nat,
                  modify (λ w : world, set_bindings (<["client":=client]> (bindings w)) w)
                  ≫= λ _ : (),
                       print "✅ Connected to Weaviate!"
                       ≫= λ _ : (),
                            SetupCollection.create_bbc_collection E client
                            ≫= λ collection : string,
                                 SetupCollection.load_data_to_collection E client collection
                                 ≫= k) w1
            = prepend ([Connect h; Print "✅ Connected to Weaviate!"] ++ l3)
                      ((SetupCollection.load_data_to_collection E h coll ≫= k) w3)) as Hloading.
  { intros k. rewrite Hconnected.
    erewrite bind_step by reflexivity. erewrite bind_step by reflexivity.
    erewrite bind_step by exact Hcreate.
    rewrite !prepend_prepend. reflexivity. }
  destruct o4 as [[|] | e].
  - (* everything succeeded *)
    pose proof (path_completed E w _ _ h coll _ _ _ _ Hwait Hconnect eq_refl Hcreate Hload) as P.
    assert (guarded w1 = Result (Ret tt) w4
                           ([Connect h; Print "✅ Connected to Weaviate!"] ++ l3 ++ l4
                            ++ completed)) as Hguarded.
    { unfold guarded. erewrite try_except_ret; [reflexivity |].
      rewrite Hloading. erewrite bind_step by exact Hload. cbv beta iota.
      erewrite bind_step by reflexivity.
      rewrite print_run, !prepend_prepend, prepend_Result.
      unfold completed. by rewrite <- !app_assoc. }
    erewrite try_finally_step; [| exact Hguarded |].
    2: { rewrite release_client_run, Hclient4. reflexivity. }
    by_path P.
  - (* the load reported a failure *)
    pose proof (path_load_failed E w _ _ h coll _ _ _ _ Hwait Hconnect eq_refl Hcreate Hload) as P.
    assert (guarded w1 = Result (Raise (SystemExit 1)) w4
                           ([Connect h; Print "✅ Connected to Weaviate!"] ++ l3 ++ l4
                            ++ [Print load_failed_msg])) as Hguarded.
    { unfold guarded. erewrite try_except_uncaught; [reflexivity | | reflexivity].
      rewrite Hloading. erewrite bind_step by exact Hload. cbv beta iota.
      erewrite bind_step by reflexivity.
      rewrite sys_exit_run, !prepend_prepend, prepend_Result.
      unfold load_failed_msg. by rewrite <- !app_assoc, app_nil_r. }
    erewrite try_finally_step; [| exact Hguarded |].
    2: { rewrite release_client_run, Hclient4. reflexivity. }
    by_path P.
  - (* the load raised *)
    pose proof (path_load_raised E w _ _ h coll _ _ e _ _ Hwait Hconnect eq_refl Hcreate Hload) as P.
    assert (guarded w1 = Result (Raise (SystemExit 1)) w4
                           ([Connect h; Print "✅ Connected to Weaviate!"] ++ l3 ++ l4
                            ++ connect_error e)) as Hguarded.
    { unfold guarded.
      match goal with
      | |- try_except ?body _ _ _ = _ =>
          assert (body w1 = Result (Raise e) w4
                              ([Connect h; Print "✅ Connected to Weaviate!"] ++ l3 ++ l4))
            as Hbody
      end.
      { rewrite Hloading. erewrite bind_stop by exact Hload.
        rewrite prepend_Result. by rewrite <- !app_assoc. }
      rewrite (try_except_caught _ _ _ _ _ _ _ Hbody (Hexn4 e eq_refl)), handler_run.
      rewrite prepend_Result. by rewrite <- !app_assoc. }
    erewrite try_finally_step; [| exact Hguarded |].
    2: { rewrite release_client_run, Hclient4. reflexivity. }
    by_path P.
Qed.

(** ** C7: the client session is closed *)

Lemma acquired_app l1 l2 : acquired (l1 ++ l2) = acquired l1 ++ acquired l2.
Proof. apply omap_app. Qed.

Lemma released_app l1 l2 : released (l1 ++ l2) = released l1 ++ released l2.
Proof. apply omap_app. Qed.

Lemma session_free_none l : session_free l -> acquired l = [] /\ released l = [].
Proof.
  induction 1 as [| e l He _ [IHa IHr]]; [done |].
  destruct e; try discriminate; cbn; by rewrite ?IHa, ?IHr.
Qed.

Lemma inert_log {A} (m : M A) w o w' l :
  inert m -> m w = Result o w' l -> session_free l.
Proof. intros Hm Hrun. destruct (Hm w) as (_ & _ & _ & Hl & _). by rewrite Hrun in Hl. Qed.

Lemma closed_not_open h w : h ∉ sessions (closed h w).
Proof.
  unfold closed. cbn [sessions set_sessions]. intros Hin.
  apply list_elem_of_filter in Hin as [Hne _]. by apply Hne.
Qed.

(** Splits a log along its parts and closes what is known to be free of
    session events. *)
Ltac session_free_tac :=
  repeat first
    [ apply Forall_app_2
    | assumption
    | apply List.Forall_cons; [reflexivity |]
    | apply List.Forall_nil ].

(** C7, amended. On every run of [main] of [setup_collection.py], as a
    process: either no session is acquired and none is closed, or exactly
    one session is acquired and it is closed exactly once, after it was
    acquired and as the last call before the process exits, whether the run
    completes, the load fails or an exception is raised after the
    connection; the session is then no longer open.  (The handle that
    [weaviate_server.py] binds at module level is left open.) *)
Theorem main_closes_client (E : env) (w : world) :
  let r := python_run (SetupCollection.main E) w in
  exists code body,
    out r = Ret code
    /\ log r = body ++ [ProcessExit code]
    /\ released body = acquired body
    /\ (session_free body
        \/ exists h before between,
             body = before ++ Connect h :: between ++ [Close h]
             /\ session_free before /\ session_free between
             /\ acquired body = [h] /\ released body = [h]
             /\ h ∉ sessions (final r)).
Proof.
  cbv zeta. unfold python_run. cbn [out final log].
  exists (exit_code (out (SetupCollection.main E w))), (log (SetupCollection.main E w)).
  split; [reflexivity |]. split; [reflexivity |].
  destruct (main_paths E w)
    as [w1 l1 Hwait | w1 l1 msg Hwait Hconnect
        | w1 l1 h e w3 l3 Hwait Hconnect Hh Hcreate
        | w1 l1 h coll w3 l3 e w4 l4 Hwait Hconnect Hh Hcreate Hload
        | w1 l1 h coll w3 l3 w4 l4 Hwait Hconnect Hh Hcreate Hload
        | w1 l1 h coll w3 l3 w4 l4 Hwait Hconnect Hh Hcreate Hload ];
    cbn [out final log];
    pose proof (inert_log _ _ _ _ _ (inert_wait_for_weaviate_with E _ _ _ _) Hwait) as Hfree1;
    try pose proof (inert_log _ _ _ _ _ (inert_create_bbc_collection E _) Hcreate) as Hfree3;
    try pose proof (inert_log _ _ _ _ _ (inert_load_data_to_collection E _ _) Hload) as Hfree4.
  1: { assert (session_free (main_prelude ++ l1 ++ [Print not_ready_msg])) as Hfree
         by (unfold session_free, main_prelude; session_free_tac).
       destruct (session_free_none _ Hfree) as [-> ->]. split; [reflexivity | by left]. }
  1: { assert (session_free (main_prelude ++ l1 ++ connect_error (Exception msg))) as Hfree
         by (unfold session_free, main_prelude, connect_error; session_free_tac).
       destruct (session_free_none _ Hfree) as [-> ->]. split; [reflexivity | by left]. }
  all: match goal with
       | |- context [main_prelude ++ _ ++ [Connect ?h'; ?p] ++ ?rest] =>
           assert (exists between, rest = between ++ [Close h'] /\ session_free between)
             as (between & Hrest & Hbetween)
       end.
  1, 3, 5, 7:
    unfold session_free, connect_error, completed;
    eexists; split; [rewrite ?app_assoc; reflexivity | session_free_tac].
  all: rewrite Hrest.
  all: assert (session_free (main_prelude ++ l1)) as Hbefore
         by (unfold session_free, main_prelude; session_free_tac).
  all: destruct (session_free_none _ Hfree1) as [Ha1 Hr1];
       destruct (session_free_none _ Hbetween) as [Ha2 Hr2].
  all: assert (forall p, acquired (main_prelude ++ l1 ++ [Connect h; Print p] ++ between ++ [Close h]) = [h]
                    /\ released (main_prelude ++ l1 ++ [Connect h; Print p] ++ between ++ [Close h]) = [h])
         as Hcounts
         by (intros p; rewrite !acquired_app, !released_app, Ha1, Hr1, Ha2, Hr2; done).
  all: destruct (Hcounts "✅ Connected to Weaviate!") as [Hacq Hrel]; rewrite Hacq, Hrel.
  all: split; [reflexivity | right].
  all: exists h, (main_prelude ++ l1), (Print "✅ Connected to Weaviate!" :: between).
  all: split; [by rewrite <- !app_assoc |].
  all: split; [exact Hbefore |].
  all: split; [by apply List.Forall_cons |].
  all: split; [reflexivity |]; split; [reflexivity |]; apply closed_not_open.
Qed.

(** C7, as stated, fails: imported against a service that is up,
    [weaviate_server.py] acquires a session, binds it to the module-level
    name [client] and ends without closing it; the process exits with the
    session open. *)
Lemma module_body_leaves_session_open :
  let r := python_run (WeaviateServer.module_body (healthy_env [])) fresh_world in
  out r = Ret 0%Z
  /\ acquired (log r) = [0]
  /\ released (log r) = []
  /\ released (log r) <> acquired (log r)
  /\ sessions (final r) = [0].
Proof.
  cbv zeta.
  assert (acquired (log (python_run (WeaviateServer.module_body (healthy_env [])) fresh_world))
          = [0]) as -> by (vm_compute; reflexivity).
  assert (released (log (python_run (WeaviateServer.module_body (healthy_env [])) fresh_world))
          = []) as -> by (vm_compute; reflexivity).
  split; [vm_compute; reflexivity |]. split; [reflexivity |]. split; [reflexivity |].
  split; [discriminate | vm_compute; reflexivity].
Qed.

(** ** C8: the exit status *)

Lemma connect_ret E w1 h :
  out (connect_to_local E "localhost" 8080 50051 w1) = Ret h <->
  connect_fault E = None /\ h = next_session w1.
Proof.
  rewrite connect_to_local_run. destruct (connect_fault E); cbn [out]; split.
  - discriminate.
  - intros [? _]; discriminate.
  - intros [= <-]. done.
  - intros [_ ->]. done.
Qed.

(** C8. The process that runs [main] exits with status 0 or 1; the status
    is 0 exactly when the probe returns [True], the connection is made, the
    collection is created and the load returns [True]; when it is 1 (the
    service never became ready, the connection or a schema operation raised,
    the load failed or raised), one of the failure messages of [main] was
    printed before the exit. *)
Theorem main_exit_code (E : env) (w : world) :
  let r := python_run (SetupCollection.main E) w in
  exists code body,
    out r = Ret code
    /\ log r = body ++ [ProcessExit code]
    /\ (code = 0 \/ code = 1)%Z
    /\ (code = 0%Z <-> setup_succeeds E w)
    /\ (code = 1%Z -> exists s, Print s ∈ body /\ failure_report s).
Proof.
  cbv zeta. unfold python_run. cbn [out final log].
  exists (exit_code (out (SetupCollection.main E w))), (log (SetupCollection.main E w)).
  split; [reflexivity |]. split; [reflexivity |].
  destruct (main_paths E w)
    as [w1 l1 Hwait | w1 l1 msg Hwait Hconnect
        | w1 l1 h e w3 l3 Hwait Hconnect Hh Hcreate
        | w1 l1 h coll w3 l3 e w4 l4 Hwait Hconnect Hh Hcreate Hload
        | w1 l1 h coll w3 l3 w4 l4 Hwait Hconnect Hh Hcreate Hload
        | w1 l1 h coll w3 l3 w4 l4 Hwait Hconnect Hh Hcreate Hload ];
    cbn [out final log exit_code].
  6: { (* completed *)
    split; [by left |]. split; [| discriminate].
    split; [intros _ | reflexivity].
    exists w1, l1, h, coll, w3, l3, w4, l4.
    split; [exact Hwait |]. split; [by apply connect_ret |]. done. }
  all: split; [by right |].
  all: split;
    [ split; [discriminate |];
      intros (w1' & l1' & h' & coll' & w3' & l3' & w4' & l4' & Hwait' & Hconnect' & Hcreate' & Hload');
      apply connect_ret in Hconnect' as [Hconnect' ->];
      rewrite Hwait in Hwait';
      first [ discriminate Hwait'
            | injection Hwait' as <- <-;
              first [ congruence
                    | subst h; rewrite Hcreate in Hcreate';
                      first [ discriminate Hcreate'
                            | injection Hcreate' as <- <- <-;
                              rewrite Hload in Hload'; discriminate Hload' ] ] ]
    | intros _ ].
  - exists not_ready_msg. split; [| constructor].
    rewrite !elem_of_app. right. right. left.
  - eexists. split; [| apply (report_error (Exception msg))].
    rewrite !elem_of_app. right. right. left.
  - eexists. split; [| apply (report_error e)].
    rewrite !elem_of_app. do 4 right. left. left.
  - eexists. split; [| apply (report_error e)].
    rewrite !elem_of_app. do 5 right. left. left.
  - exists load_failed_msg. split; [| constructor].
    rewrite !elem_of_app. do 5 right. left. left.
Qed.

(** * Further properties of the code *)

(** ** The object built from a record *)
Lemma data_object_of_dom (item : record) :
  dom (SetupCollection.data_object_of item) = schema_keys.
Proof.
  unfold SetupCollection.data_object_of. rewrite dom_list_to_map_L. reflexivity.
Qed.

Lemma data_object_of_absent_key (item : record) (k : string) :
  k ∉ schema_keys -> SetupCollection.data_object_of item !! k = None.
Proof. intros Hk. apply not_elem_of_dom. by rewrite data_object_of_dom. Qed.

(** X1. The object built from a record has exactly the seven keys of the
    schema, whatever keys the record has: a key of the record that is not in
    the schema is never passed on to the service. *)
Theorem data_object_of_keys (item : record) (k : string) :
  (is_Some (SetupCollection.data_object_of item !! k) <-> k ∈ schema_keys)
  /\ (k ∉ schema_keys -> SetupCollection.data_object_of item !! k = None)
  /\ size (SetupCollection.data_object_of item) = 7.
Proof.
  split; [by rewrite <- elem_of_dom, data_object_of_dom |].
  split; [apply data_object_of_absent_key |].
  rewrite <- size_dom, data_object_of_dom. reflexivity.
Qed.

Lemma schema_keys_cases (k : string) :
  k ∈ schema_keys ->
  k = "article_content" \/ k = "chunk" \/ k = "chunk_index" \/ k = "description"
  \/ k = "link" \/ k = "pubDate" \/ k = "title".
Proof.
  unfold schema_keys, SetupCollection.bbc_properties. cbn [fmap list_fmap prop_name].
  rewrite elem_of_list_to_set, !elem_of_cons, elem_of_nil. tauto.
Qed.

(** X2. Building the object is idempotent: built again from its own result,
    the object is the same, so an already complete object goes through
    unchanged. *)
Theorem data_object_of_idempotent (item : record) :
  SetupCollection.data_object_of (SetupCollection.data_object_of item)
  = SetupCollection.data_object_of item.
Proof.
  apply map_eq. intros k.
  destruct (decide (k ∈ schema_keys)) as [Hk | Hk].
  - apply schema_keys_cases in Hk.
    destruct Hk as [-> | [-> | [-> | [-> | [-> | [-> | ->]]]]]]; reflexivity.
  - by rewrite !data_object_of_absent_key.
Qed.

(** ** Replacing the collection *)

Lemma filter_named_delete n m (st : store) :
  n ≠ m -> filter (named n) (store_delete m st) = filter (named n) st.
Proof.
  intros Hne. unfold store_delete. induction st as [| c st IH]; [reflexivity |].
  rewrite !filter_cons. destruct (decide (~ named m c)) as [Hc | Hc].
  - rewrite filter_cons. destruct (decide (named n c)); by rewrite IH.
  - rewrite IH. rewrite decide_False; [reflexivity |].
    unfold named in *. intros Hn. apply Hc. intros Hm. congruence.
Qed.

Lemma filter_named_replaced n (st : store) :
  n ≠ "bbc_collection" -> filter (named n) (replaced st) = filter (named n) st.
Proof.
  intros Hne. unfold replaced, store_create, without. rewrite filter_app, filter_cons.
  rewrite decide_False by (unfold named; cbn; congruence).
  rewrite filter_nil, app_nil_r.
  destruct (store_exists "bbc_collection" st); [by apply filter_named_delete | reflexivity].
Qed.

(** X3. A call of [create_bbc_collection] that returns leaves every
    collection of another name as it was: its schema, its objects and the
    number of collections of that name. *)
Theorem create_bbc_collection_keeps_others (E : env) (client : nat) (w : world) (h n : string) :
  out (SetupCollection.create_bbc_collection E client w) = Ret h ->
  n ≠ "bbc_collection" ->
  let st' := collections (final (SetupCollection.create_bbc_collection E client w)) in
  store_lookup n st' = store_lookup n (collections w)
  /\ store_count n st' = store_count n (collections w)
  /\ object_count n st' = object_count n (collections w).
Proof.
  intros Hret Hne. cbv zeta. rewrite (create_bbc_collection_ret _ _ _ _ Hret).
  cbn [final collections set_collections].
  unfold object_count, store_lookup, store_count.
  by rewrite filter_named_replaced.
Qed.

Lemma create_bbc_collection_keeps_others_witness :
  out (SetupCollection.create_bbc_collection (healthy_env []) 0 legacy_world)
  = Ret "bbc_collection"
  /\ "notes" ≠ "bbc_collection"
  /\ store_count "notes"
       (collections (final (SetupCollection.create_bbc_collection (healthy_env []) 0
                              legacy_world))) = 1.
Proof.
  assert (out (SetupCollection.create_bbc_collection (healthy_env []) 0 legacy_world)
          = Ret "bbc_collection") as Hret by (vm_compute; reflexivity).
  split; [exact Hret |]. split; [discriminate |].
  pose proof (create_bbc_collection_keeps_others (healthy_env []) 0 legacy_world
                "bbc_collection" "notes" Hret ltac:(discriminate)) as (_ & Hcount & _).
  rewrite Hcount. reflexivity.
Defined.

(** X4. The replacement is not atomic: when the service answers the
    existence check and the deletion but rejects the creation, the exception
    of the creation leaves [create_bbc_collection] and the store holds no
    collection named [bbc_collection] any more, the earlier one included. *)
Theorem create_bbc_collection_rejected_create (E : env) (client : nat) (w : world) (msg : string) :
  schema_fault E OpExists = None ->
  schema_fault E OpDelete = None ->
  schema_fault E OpCreate = Some msg ->
  let r := SetupCollection.create_bbc_collection E client w in
  out r = Raise (Exception msg)
  /\ collections (final r) = without "bbc_collection" (collections w)
  /\ store_count "bbc_collection" (collections (final r)) = 0
  /\ store_lookup "bbc_collection" (collections (final r)) = None.
Proof.
  intros Hexists Hdelete Hcreate. cbv zeta.
  assert (SetupCollection.create_bbc_collection E client w
          = Result (Raise (Exception msg))
                   (set_collections (without "bbc_collection" (collections w)) w)
                   (CollExists "bbc_collection"
                    :: (if store_exists "bbc_collection" (collections w) then
                          [Print "⚠️  Collection 'bbc_collection' already exists. Deleting it...";
                           CollDelete "bbc_collection"]
                        else [])
                    ++ [Print "📝 Creating BBC collection...";
                        CollCreate "bbc_collection" SetupCollection.bbc_properties])) as ->.
  { unfold SetupCollection.create_bbc_collection, without.
    rewrite run_bind, collections_exists_run, Hexists. run.
    destruct (store_exists "bbc_collection" (collections w)) eqn:Hfound.
    - run. rewrite collections_delete_run, Hdelete. run.
      rewrite collections_create_run, Hcreate. run. reflexivity.
    - run. rewrite collections_create_run, Hcreate. run. by destruct w. }
  cbn [out final collections set_collections].
  pose proof (without_absent "bbc_collection" (collections w)) as Habsent.
  pose proof (store_count_absent _ _ Habsent) as Hzero.
  split; [reflexivity |]. split; [reflexivity |]. split; [exact Hzero |].
  unfold store_lookup. unfold store_count in Hzero. apply nil_length_inv in Hzero.
  by rewrite Hzero.
Qed.

Lemma create_bbc_collection_rejected_create_witness :
  object_count "bbc_collection" (collections legacy_world) = 1
  /\ store_lookup "bbc_collection"
       (collections (final (SetupCollection.create_bbc_collection read_only_env 0
                              legacy_world))) = None.
Proof.
  split; [reflexivity |].
  apply (create_bbc_collection_rejected_create read_only_env 0 legacy_world "read-only");
    reflexivity.
Defined.

(** X5. A call of [create_bbc_collection] that returns has asked the service
    to delete the collection exactly when the existence check found it; the
    check is its first call and the creation its last. *)
Theorem create_bbc_collection_deletes_iff_present (E : env) (client : nat) (w : world) (h : string) :
  out (SetupCollection.create_bbc_collection E client w) = Ret h ->
  let l := log (SetupCollection.create_bbc_collection E client w) in
  (CollDelete "bbc_collection" ∈ l <-> store_exists "bbc_collection" (collections w) = true)
  /\ exists middle,
       l = CollExists "bbc_collection" :: middle
           ++ [CollCreate "bbc_collection" SetupCollection.bbc_properties;
               Print "✅ Collection created successfully!"].
Proof.
  intros Hret. cbv zeta. rewrite (create_bbc_collection_ret _ _ _ _ Hret). cbn [log].
  unfold create_log. destruct (store_exists "bbc_collection" (collections w)); split.
  - split; [done |]. intros _. cbn [app].
    do 2 apply list_elem_of_further. apply list_elem_of_here.
  - eexists [_; _; _]. reflexivity.
  - split; [| discriminate]. cbn [app]. rewrite !elem_of_cons, elem_of_nil.
    intros [? | [? | [? | [? | []]]]]; discriminate.
  - eexists [_]. reflexivity.
Qed.

Lemma create_bbc_collection_deletes_iff_present_witness :
  out (SetupCollection.create_bbc_collection (healthy_env []) 0 fresh_world)
  = Ret "bbc_collection"
  /\ CollDelete "bbc_collection"
     ∉ log (SetupCollection.create_bbc_collection (healthy_env []) 0 fresh_world).
Proof.
  assert (out (SetupCollection.create_bbc_collection (healthy_env []) 0 fresh_world)
          = Ret "bbc_collection") as Hret by (vm_compute; reflexivity).
  split; [exact Hret |].
  pose proof (create_bbc_collection_deletes_iff_present (healthy_env []) 0 fresh_world
                "bbc_collection" Hret) as [Hiff _].
  intros Hin. apply Hiff in Hin. discriminate Hin.
Defined.

(** ** The readiness probe *)

(** X6. With a positive timeout and a service that answers the next health
    request with 200 in time, the probe returns [True] after that single
    request: no waiting message, no sleep, and less than the request
    timeout has passed. *)
Theorem wait_ready_at_first_attempt
    (E : env) (ready_msg waiting_msg url : string) (timeout : Z) (w : world) :
  (0 < timeout)%Z ->
  timely_ready E (requests w) ->
  exists d : Z,
    (0 <= d < request_timeout)%Z
    /\ wait_for_weaviate_with E ready_msg waiting_msg url timeout w
       = Result (Ret true) (after_request d w)
                [HttpGet (ready_path url) request_timeout; Print ready_msg].
Proof.
  intros Hpos Hready.
  destruct (attempt_cases E ready_msg url w) as (d & Hd & [(Hatt & Hlt & _) | [_ Hnot]]);
    [| contradiction].
  exists d. split; [lia |].
  assert (forall fuel,
            wait_loop E ready_msg waiting_msg (S fuel) url timeout (clock w) w
            = Result (Ret (Some true)) (after_request d w)
                     [HttpGet (ready_path url) request_timeout; Print ready_msg]) as Hloop.
  { intros fuel. rewrite wait_loop_S.
    rewrite (bind_step _ _ w w (clock w) []) by reflexivity. rewrite prepend_nil.
    rewrite decide_True by lia.
    rewrite (bind_step _ _ _ _ _ _ Hatt). reflexivity. }
  unfold wait_for_weaviate_with, attempts_bound.
  rewrite (bind_step _ _ w w (clock w) []) by reflexivity. rewrite prepend_nil.
  rewrite (bind_step _ _ _ _ _ _ (Hloop _)). reflexivity.
Qed.

Lemma wait_ready_at_first_attempt_witness :
  (0 < default_timeout)%Z
  /\ exists d : Z,
       (0 <= d < request_timeout)%Z
       /\ wait_for_weaviate_with (healthy_env []) "Weaviate is ready!"
            "Waiting for Weaviate to start..." default_url default_timeout fresh_world
          = Result (Ret true) (after_request d fresh_world)
                   [HttpGet (ready_path default_url) request_timeout;
                    Print "Weaviate is ready!"].
Proof.
  split; [reflexivity |].
  apply (wait_ready_at_first_attempt (healthy_env []) "Weaviate is ready!"
           "Waiting for Weaviate to start..." default_url default_timeout fresh_world).
  - reflexivity.
  - split; reflexivity.
Defined.

Lemma wait_loop_requests (E : env) (ready_msg waiting_msg : string) url timeout start_time fuel :
  forall w,
    let r := wait_loop E ready_msg waiting_msg fuel url timeout start_time w in
    let made := (Z.of_nat (requests (final r)) - Z.of_nat (requests w))%Z in
    made = 0%Z
    \/ (0 < made /\ clock w - start_time + sleep_interval * (made - 1) < timeout)%Z.
Proof.
  induction fuel as [| fuel IH]; intros w; cbv zeta.
  - left. cbn. lia.
  - rewrite wait_loop_S.
    rewrite (bind_step _ _ w w (clock w) []) by reflexivity. rewrite prepend_nil.
    destruct (decide (clock w - start_time < timeout)%Z) as [Hin | Hout].
    + destruct (attempt_cases E ready_msg url w) as (d & Hd & [(Hatt & _) | [Hatt _]]).
      * rewrite (bind_step _ _ _ _ _ _ Hatt). right. cbn.
        unfold sleep_interval, seconds. lia.
      * rewrite (bind_step _ _ _ _ _ _ Hatt).
        rewrite (bind_step _ _ _ (after_request d w) tt [Print waiting_msg]) by reflexivity.
        rewrite (bind_step _ _ _ _ _ _ (time_sleep_run _ _)).
        set (w1 := set_clock (clock (after_request d w) + sleep_interval) (after_request d w)).
        assert (clock w1 = clock w + d + sleep_interval)%Z as Hclock by reflexivity.
        assert (requests w1 = S (requests w)) as Hreq by reflexivity.
        specialize (IH w1). cbv zeta in IH. rewrite Hclock, Hreq in IH.
        rewrite !final_prepend. right.
        unfold sleep_interval, request_timeout, seconds in *. lia.
    + left. cbn. lia.
Qed.

(** X7. The number of health requests of a call is bounded by the timeout:
    none at all for a timeout of zero or less, and otherwise the k-th
    request is issued only if k - 1 sleeps of [sleep_interval] fit before
    the timeout (at most 30 requests for the default 60 s). *)
Theorem wait_attempts_bounded
    (E : env) (ready_msg waiting_msg url : string) (timeout : Z) (w : world) :
  let r := wait_for_weaviate_with E ready_msg waiting_msg url timeout w in
  let made := (Z.of_nat (requests (final r)) - Z.of_nat (requests w))%Z in
  (0 <= made)%Z
  /\ (timeout <= 0 -> made = 0)%Z
  /\ (0 < timeout -> sleep_interval * (made - 1) < timeout)%Z.
Proof.
  cbv zeta. unfold wait_for_weaviate_with.
  rewrite (bind_step _ _ w w (clock w) []) by reflexivity. rewrite prepend_nil.
  pose proof (wait_loop_requests E ready_msg waiting_msg url timeout (clock w) (attempts_bound timeout) w) as Hmade.
  cbv zeta in Hmade. rewrite run_bind.
  destruct (inert_wait_loop E ready_msg waiting_msg (attempts_bound timeout) url timeout (clock w) w)
    as (_ & _ & _ & _ & Hexn).
  destruct (out (wait_loop E ready_msg waiting_msg (attempts_bound timeout) url timeout (clock w) w))
    as [b | e] eqn:Hout; cbn [final prepend mret M_ret];
    unfold sleep_interval, seconds in *; lia.
Qed.

(** X8. The probe has no effect but the passing of time and the health
    requests it issues: the store, the open sessions, the batch buffer, the
    [subprocess.Popen] binding and the bound names are as before, and the
    clock never goes back. *)
Theorem wait_changes_clock_and_requests_only
    (E : env) (ready_msg waiting_msg url : string) (timeout : Z) (w : world) :
  let w' := final (wait_for_weaviate_with E ready_msg waiting_msg url timeout w) in
  collections w' = collections w
  /\ sessions w' = sessions w
  /\ next_session w' = next_session w
  /\ buffer w' = buffer w
  /\ submitted w' = submitted w
  /\ Popen w' = Popen w
  /\ bindings w' = bindings w
  /\ (clock w <= clock w')%Z
  /\ requests w <= requests w'.
Proof.
  cbv zeta.
  destruct (wait_for_weaviate_with_spec E ready_msg waiting_msg url timeout w)
    as (b & n & t & -> & Hmono & _).
  cbn. repeat split; [exact Hmono | lia].
Qed.

(** ** The load: errors and edge cases *)

Section LoadExtras.
Context (E : env) (client : nat) (coll : string).

Lemma submitted_absorb o w : submitted (absorb E coll o w) = S (submitted w).
Proof. unfold absorb. cbv zeta. by destruct (decide _). Qed.

Lemma insert_loop_stops total (before : list data_object) o after msg :
  forall i w,
    (forall j, j < length before -> add_fault E (submitted w + j) = None) ->
    add_fault E (submitted w + length before) = Some msg ->
    exists w',
      SetupCollection.insert_loop E coll total i (before ++ o :: after) w
      = Result (Raise (Exception msg)) w' (insert_log total i before ++ [AddObject o]).
Proof.
  induction before as [| b before IH]; intros i w Hok Hfault.
  - cbn [app length] in *. rewrite Nat.add_0_r in Hfault.
    exists w. cbn [SetupCollection.insert_loop insert_log app].
    apply bind_stop. by rewrite add_object_run, Hfault.
  - cbn [app SetupCollection.insert_loop insert_log].
    assert (add_fault E (submitted w) = None) as Hfirst.
    { specialize (Hok 0). rewrite Nat.add_0_r in Hok. apply Hok. cbn; lia. }
    destruct (IH (S i) (absorb E coll b w)) as (w' & Hrest).
    { intros j Hj. rewrite submitted_absorb.
      replace (S (submitted w) + j) with (submitted w + S j) by lia. apply Hok. cbn; lia. }
    { rewrite submitted_absorb.
      replace (S (submitted w) + length before) with (submitted w + length (b :: before))
        by (cbn; lia).
      exact Hfault. }
    exists w'.
    erewrite bind_step by (rewrite add_object_run, Hfirst; reflexivity).
    replace (i + 1) with (S i) by lia. unfold report_after.
    destruct (decide (S i mod 100 = 0)).
    + erewrite bind_step by reflexivity. rewrite Hrest. reflexivity.
    + erewrite bind_step by reflexivity. rewrite Hrest. reflexivity.
Qed.

(** With the file read, the load returns: every exception of the batch
    block is caught. *)
Lemma load_holds data w :
  dataset E = Holds data ->
  exists (b : bool) w' block,
    SetupCollection.load_data_to_collection E client coll w
    = Result (Ret b) w'
             (load_header (length data) ++ block)
    /\ let batch := with_batch E coll
                      (SetupCollection.insert_loop E coll (length data) 0
                         (SetupCollection.data_object_of <$> data)) w in
       match out batch with
       | Ret _ => b = true /\ w' = final batch
                  /\ block = log batch ++ [Print (SetupCollection.loaded_msg (length data))]
       | Raise e => b = false /\ w' = final batch /\ is_Exception e = true
                    /\ block = log batch ++ [Print (insert_error_msg e)]
       end.
Proof.
  intros Hfile. unfold SetupCollection.load_data_to_collection. run.
  match goal with
  | |- context [try_except ?m _ _ w] =>
      assert (m w = Result (Ret (Some data)) w
                           [JoblibLoad "data/bbc_data.joblib";
                            Print ("📊 Found " +:+ pretty (length data) +:+ " data items")])
        as Hblock
  end.
  { rewrite run_bind, joblib_load_run, Hfile. run. reflexivity. }
  rewrite (try_except_ret _ _ _ _ _ _ _ Hblock). run.
  rewrite length_fmap.
  set (objs := SetupCollection.data_object_of <$> data).
  pose proof (inert_with_batch E coll _ (inert_insert_loop E coll (length data) objs 0) w)
    as (_ & _ & _ & _ & Hexn).
  destruct (with_batch E coll (SetupCollection.insert_loop E coll (length data) 0 objs) w)
    as [o w' l] eqn:Hrun.
  cbn [out final log] in *.
  destruct o as [[] | e].
  - erewrite try_except_ret; [| rewrite run_bind, Hrun; run; reflexivity].
    run. exists true, w'. eexists. split; [| split; [reflexivity | split; reflexivity]].
    unfold load_header. cbn [app]. reflexivity.
  - specialize (Hexn e eq_refl).
    erewrite try_except_caught; [| rewrite run_bind, Hrun; reflexivity | exact Hexn].
    run. exists false, w'. eexists.
    split; [| split; [reflexivity | split; [reflexivity | split; [exact Hexn | reflexivity]]]].
    unfold load_header, insert_error_msg. cbn [app]. reflexivity.
Qed.
End LoadExtras.



(** X10. [load_data_to_collection] returns [False] in two cases only: the
    dataset file is missing, and then nothing was submitted and the world is
    unchanged; or the batch block raised an exception, and then the last
    thing printed is the insertion error with the text of that exception. *)
Theorem load_false_cases (E : env) (client : nat) (coll : string) (w : world) :
  let r := SetupCollection.load_data_to_collection E client coll w in
  out r = Ret false ->
  (dataset E = Missing /\ final r = w /\ submissions (log r) = [])
  \/ (exists data e before,
        dataset E = Holds data
        /\ is_Exception e = true
        /\ out (with_batch E coll
                  (SetupCollection.insert_loop E coll (length data) 0
                     (SetupCollection.data_object_of <$> data)) w) = Raise e
        /\ log r = before ++ [Print (insert_error_msg e)]).
Proof.
  cbv zeta. intros Hret.
  destruct (dataset E) as [| msg | data] eqn:Hfile.
  - left. rewrite (load_missing E client coll w Hfile). done.
  - rewrite (load_unreadable E client coll w msg Hfile) in Hret. discriminate.
  - right. destruct (load_holds E client coll data w Hfile) as (b & w' & block & Hrun & Hcase).
    rewrite Hrun in Hret. injection Hret as ->. cbv zeta in Hcase.
    destruct (out (with_batch _ _ _ _)) as [[] | e] eqn:Hbatch.
    + destruct Hcase as [Hcontra _]. discriminate.
    + destruct Hcase as (_ & _ & He & Hblock).
      exists data, e. eexists. split; [reflexivity |]. split; [exact He |].
      split; [exact Hbatch |]. rewrite Hrun. cbn [log]. rewrite Hblock, !app_assoc. reflexivity.
Qed.

Lemma load_false_cases_witness :
  out (SetupCollection.load_data_to_collection failing_batch_env 0 "bbc_collection" ready_world)
  = Ret false
  /\ exists before,
       log (SetupCollection.load_data_to_collection failing_batch_env 0 "bbc_collection"
              ready_world)
       = before ++ [Print (insert_error_msg (Exception "connection reset"))].
Proof.
  assert (out (SetupCollection.load_data_to_collection failing_batch_env 0 "bbc_collection"
                 ready_world) = Ret false) as Hret by (vm_compute; reflexivity).
  split; [exact Hret |].
  destruct (load_false_cases _ _ _ _ Hret)
    as [(Hfile & _) | (data & e & before & Hfile & _ & Hbatch & Hlog)];
    [discriminate Hfile |].
  cbn [dataset failing_batch_env] in Hfile. injection Hfile as <-.
  assert (out (with_batch failing_batch_env "bbc_collection"
                 (SetupCollection.insert_loop failing_batch_env "bbc_collection"
                    (length [sample_record; sample_record; sample_record]) 0
                    (SetupCollection.data_object_of
                       <$> [sample_record; sample_record; sample_record])) ready_world)
          = Raise (Exception "connection reset")) as Hraise by (vm_compute; reflexivity).
  rewrite Hraise in Hbatch. injection Hbatch as <-.
  by exists before.
Defined.

(** X11. When the [add_object] call for record number k (from 0) raises,
    the loop stops there: the objects of the records 0 to k have been
    submitted and no later one, the batch block is left, the error is
    printed last and the load returns [False]. *)
Theorem load_stops_at_failing_object
    (E : env) (client : nat) (coll : string) (w : world)
    (data : list record) (k : nat) (msg : string) :
  dataset E = Holds data ->
  k < length data ->
  (forall j, j < k -> add_fault E j = None) ->
  add_fault E k = Some msg ->
  let r := SetupCollection.load_data_to_collection E client coll w in
  out r = Ret false
  /\ submissions (log r) = take (S k) (SetupCollection.data_object_of <$> data)
  /\ exists before,
       log r = before ++ [BatchExit; Print (insert_error_msg (Exception msg))].
Proof.
  intros Hfile Hk Hok Hfault. cbv zeta.
  set (objs := SetupCollection.data_object_of <$> data).
  assert (k < length objs) as Hk' by (unfold objs; by rewrite length_fmap).
  destruct (lookup_lt_is_Some_2 objs k Hk') as [o Ho].
  pose proof (take_drop_middle objs k o Ho) as Hsplit.
  assert (length (take k objs) = k) as Htake by (rewrite length_take; lia).
  destruct (insert_loop_stops E coll (length data) (take k objs) o (drop (S k) objs) msg 0
              (set_batch [] 0 w)) as (w1 & Hloop).
  { intros j Hj. rewrite Htake in Hj. cbn. by apply Hok. }
  { rewrite Htake. cbn. exact Hfault. }
  rewrite Hsplit in Hloop.
  assert (with_batch E coll (SetupCollection.insert_loop E coll (length data) 0 objs) w
          = Result (Raise (Exception msg)) (set_batch [] (submitted w1) w1)
                   (BatchEnter coll :: insert_log (length data) 0 (take k objs)
                    ++ [AddObject o; BatchExit])) as Hbatch.
  { unfold with_batch.
    erewrite bind_step by reflexivity. erewrite bind_step by reflexivity.
    match goal with
    | |- context [try_except ?body ?handles ?handler] =>
        assert (try_except body handles handler (set_batch [] 0 w)
                = Result (Raise (Exception msg)) (set_batch [] (submitted w1) w1)
                         (insert_log (length data) 0 (take k objs) ++ [AddObject o; BatchExit]))
          as Htry
    end.
    { rewrite (try_except_caught _ _ _ _ _ _ _ Hloop eq_refl). unfold batch_abort. run.
      by rewrite <- app_assoc. }
    rewrite (bind_stop _ _ _ _ _ _ Htry). reflexivity. }
  destruct (load_holds E client coll data w Hfile) as (b & w' & block & Hrun & Hcase).
  cbv zeta in Hcase. fold objs in Hcase. rewrite Hbatch in Hcase. cbn [out final log] in Hcase.
  destruct Hcase as (-> & _ & _ & ->). rewrite Hrun. cbn [out log].
  split; [reflexivity |]. split.
  - change (BatchEnter coll :: ?l) with ([BatchEnter coll] ++ l).
    rewrite !submissions_app, submissions_insert_log.
    change (submissions (load_header (length data))) with (@nil data_object).
    cbn [submissions omap list_omap app].
    rewrite (take_S_r objs k o Ho). by rewrite app_nil_r.
  - eexists (load_header (length data)
             ++ BatchEnter coll :: insert_log (length data) 0 (take k objs) ++ [AddObject o]).
    rewrite <- !app_assoc. cbn [app]. rewrite <- !app_assoc. reflexivity.
Qed.

Lemma load_stops_at_failing_object_witness :
  1 < length [sample_record; sample_record; sample_record]
  /\ submissions
       (log (SetupCollection.load_data_to_collection failing_batch_env 0 "bbc_collection"
               ready_world))
     = take 2 (SetupCollection.data_object_of
                 <$> [sample_record; sample_record; sample_record]).
Proof.
  split; [cbn; lia |].
  apply (load_stops_at_failing_object failing_batch_env 0 "bbc_collection" ready_world
           [sample_record; sample_record; sample_record] 1 "connection reset").
  - reflexivity.
  - cbn; lia.
  - intros j Hj. assert (j = 0) as -> by lia. reflexivity.
  - reflexivity.
Defined.

(** X12. An empty dataset is no error: when the session can be left, the
    load enters and leaves the batch block without a submission, reports
    0 objects loaded, returns [True] and leaves the store as it was. *)
Theorem load_empty_dataset (E : env) (client : nat) (coll : string) (w : world) :
  dataset E = Holds [] ->
  exit_fault E = None ->
  let r := SetupCollection.load_data_to_collection E client coll w in
  out r = Ret true
  /\ collections (final r) = collections w
  /\ log r = load_header 0
             ++ [BatchEnter coll; BatchExit; Print (SetupCollection.loaded_msg 0)].
Proof.
  intros Hfile Hexit. cbv zeta.
  destruct (load_holds E client coll [] w Hfile) as (b & w' & block & Hrun & Hcase).
  cbv zeta in Hcase.
  assert (with_batch E coll (SetupCollection.insert_loop E coll 0 0 []) w
          = Result (Ret tt) (flushed E coll (set_batch [] 0 w)) [BatchEnter coll; BatchExit])
    as Hbatch.
  { unfold with_batch.
    erewrite bind_step by reflexivity. erewrite bind_step by reflexivity.
    erewrite bind_step by reflexivity.
    unfold batch_exit. run. rewrite flush_run. run. rewrite Hexit. run. reflexivity. }
  cbn [fmap list_fmap length] in Hcase. rewrite Hbatch in Hcase. cbn [out final log] in Hcase.
  destruct Hcase as (-> & -> & ->). rewrite Hrun. cbn [out final log length].
  split; [reflexivity |]. split; [| reflexivity].
  unfold flushed, settle, accepted. cbn [collections buffer set_batch set_collections].
  by rewrite filter_nil, store_add_nil.
Qed.

Lemma load_empty_dataset_witness :
  dataset (healthy_env []) = Holds []
  /\ out (SetupCollection.load_data_to_collection (healthy_env []) 0 "bbc_collection"
            legacy_world) = Ret true
  /\ collections (final (SetupCollection.load_data_to_collection (healthy_env []) 0
                           "bbc_collection" legacy_world))
     = collections legacy_world.
Proof.
  split; [reflexivity |].
  pose proof (load_empty_dataset (healthy_env []) 0 "bbc_collection" legacy_world
                eq_refl eq_refl) as H.
  cbv zeta in H. destruct H as (Hout & Hstore & _). split; [exact Hout | exact Hstore].
Defined.

(** ** The number of progress reports *)

Lemma printed_app l1 l2 : printed (l1 ++ l2) = printed l1 ++ printed l2.
Proof. apply omap_app. Qed.

Lemma div_100_succ (i : nat) :
  S i / 100 = i / 100 + (if decide (S i mod 100 = 0) then 1 else 0).
Proof.
  pose proof (Nat.div_mod_eq i 100). pose proof (Nat.div_mod_eq (S i) 100).
  pose proof (Nat.mod_upper_bound i 100 ltac:(lia)).
  pose proof (Nat.mod_upper_bound (S i) 100 ltac:(lia)).
  destruct (decide (S i mod 100 = 0)); nia.
Qed.

Lemma printed_insert_log total (objs : list data_object) :
  forall i,
    i / 100 + length (printed (insert_log total i objs)) = (i + length objs) / 100.
Proof.
  induction objs as [| o objs IH]; intros i.
  - cbn. by rewrite !Nat.add_0_r.
  - cbn [insert_log length]. change (AddObject o :: ?l) with ([AddObject o] ++ l).
    rewrite !printed_app, !length_app. specialize (IH (S i)).
    replace (i + S (length objs)) with (S i + length objs) by lia.
    rewrite <- IH, div_100_succ. unfold report_after.
    destruct (decide (S i mod 100 = 0)); cbn; lia.
Qed.

(** X13. A load of n records that returns [True] prints, between entering
    and leaving the batch block, exactly n / 100 (rounded down) progress
    reports, next to the n submissions: none for fewer than 100 records. *)
Theorem load_number_of_reports (E : env) (client : nat) (coll : string) (w : world) :
  let r := SetupCollection.load_data_to_collection E client coll w in
  out r = Ret true ->
  exists data block,
    dataset E = Holds data
    /\ log r = load_header (length data)
               ++ BatchEnter coll :: block
               ++ [BatchExit; Print (SetupCollection.loaded_msg (length data))]
    /\ submissions block = SetupCollection.data_object_of <$> data
    /\ length (printed block) = length data / 100.
Proof.
  cbv zeta. intros Hret.
  destruct (load_ret_true E client coll w Hret) as (data & Hfile & Hlog & _).
  exists data, (insert_log (length data) 0 (SetupCollection.data_object_of <$> data)).
  split; [exact Hfile |]. split; [exact Hlog |]. split; [apply submissions_insert_log |].
  pose proof (printed_insert_log (length data) (SetupCollection.data_object_of <$> data) 0)
    as Hcount.
  rewrite length_fmap in Hcount. cbn in Hcount. exact Hcount.
Qed.

Lemma load_number_of_reports_witness :
  out (SetupCollection.load_data_to_collection (healthy_env (replicate 120 sample_record)) 0
         "bbc_collection" ready_world) = Ret true
  /\ exists block,
       submissions block = SetupCollection.data_object_of <$> replicate 120 sample_record
       /\ length (printed block) = 1.
Proof.
  assert (out (SetupCollection.load_data_to_collection
                 (healthy_env (replicate 120 sample_record)) 0 "bbc_collection" ready_world)
          = Ret true) as Hret by (vm_compute; reflexivity).
  split; [exact Hret |].
  destruct (load_number_of_reports _ _ _ _ Hret) as (data & block & Hfile & _ & Hsub & Hcount).
  cbn [dataset healthy_env] in Hfile. injection Hfile as <-.
  exists block. split; [exact Hsub |]. rewrite Hcount. reflexivity.
Defined.

(** ** The load only appends *)

Lemma appends_ret coll {A} (a : A) : appends_to coll (mret a).
Proof. intros w. exists []. cbn. by rewrite store_add_nil. Qed.

Lemma appends_raise coll {A} (e : exn) : appends_to coll (raise e : M A).
Proof. intros w. exists []. cbn. by rewrite store_add_nil. Qed.

Lemma appends_emit coll ev : appends_to coll (emit ev).
Proof. intros w. exists []. cbn. by rewrite store_add_nil. Qed.

Lemma appends_get_world coll : appends_to coll get_world.
Proof. intros w. exists []. cbn. by rewrite store_add_nil. Qed.

Lemma appends_modify coll (f : world -> world) :
  (forall w, collections (f w) = collections w) -> appends_to coll (modify f).
Proof. intros Hf w. exists []. cbn. by rewrite Hf, store_add_nil. Qed.

Lemma appends_bind coll {A B} (m : M A) (f : A -> M B) :
  appends_to coll m -> (forall a, appends_to coll (f a)) -> appends_to coll (m ≫= f).
Proof.
  intros Hm Hf w. rewrite run_bind. destruct (Hm w) as [objs Hobjs].
  destruct (out (m w)) as [a | e].
  - destruct (Hf a (final (m w))) as [objs' Hobjs']. exists (objs ++ objs').
    cbn [prepend final]. by rewrite Hobjs', Hobjs, store_add_app.
  - exists objs. exact Hobjs.
Qed.

Lemma appends_try_except coll {A} (m : M A) handles (h : exn -> M A) :
  appends_to coll m -> (forall e, appends_to coll (h e)) ->
  appends_to coll (try_except m handles h).
Proof.
  intros Hm Hh w. rewrite run_try_except. destruct (Hm w) as [objs Hobjs].
  destruct (out (m w)) as [a | e]; [by exists objs |].
  destruct (handles e); [| by exists objs].
  destruct (Hh e (final (m w))) as [objs' Hobjs']. exists (objs ++ objs').
  cbn [prepend final]. by rewrite Hobjs', Hobjs, store_add_app.
Qed.

(** Splits a program along its statements and closes what only appends. *)
Ltac appends_steps :=
  repeat match goal with
         | |- appends_to _ (_ ≫= _) => apply appends_bind; [| intros ?]
         | |- appends_to _ (try_except _ _ _) => apply appends_try_except; [| intros ?]
         | |- appends_to _ (if ?b then _ else _) => destruct b
         | |- appends_to _ (match ?x with _ => _ end) => destruct x eqn:?
         | |- appends_to _ (mret _) => apply appends_ret
         | |- appends_to _ (raise _) => apply appends_raise
         | |- appends_to _ (emit _) => apply appends_emit
         | |- appends_to _ (print _) => apply appends_emit
         | |- appends_to _ get_world => apply appends_get_world
         | |- appends_to _ (modify _) => apply appends_modify; by intros []
         | |- appends_to _ _ => assumption
         end.

Section AppendsOnly.
Context (E : env) (coll : string).

Lemma appends_flush : appends_to coll (flush E coll).
Proof. intros w. exists (accepted E (buffer w)). reflexivity. Qed.

Lemma appends_add_object o : appends_to coll (add_object E coll o).
Proof. unfold add_object. pose proof appends_flush. appends_steps. Qed.

Lemma appends_insert_loop total objs :
  forall i, appends_to coll (SetupCollection.insert_loop E coll total i objs).
Proof.
  induction objs as [| o objs IH]; intros i; cbn [SetupCollection.insert_loop].
  - apply appends_ret.
  - pose proof (appends_add_object o). pose proof (IH (S i)). appends_steps.
Qed.

Lemma appends_with_batch body : appends_to coll body -> appends_to coll (with_batch E coll body).
Proof.
  intros Hbody. unfold with_batch, batch_abort, batch_exit.
  pose proof appends_flush. appends_steps.
Qed.

Lemma appends_load client :
  appends_to coll (SetupCollection.load_data_to_collection E client coll).
Proof.
  unfold SetupCollection.load_data_to_collection, joblib_load.
  appends_steps.
  apply appends_with_batch, appends_insert_loop.
Qed.
End AppendsOnly.

Lemma store_add_names n objs (st : store) : (store_add n objs st).*1 = st.*1.
Proof.
  unfold store_add. induction st as [| c st IH]; [reflexivity |].
  rewrite !fmap_cons, IH. by destruct (decide _).
Qed.

Lemma store_lookup_add_ne n m objs (st : store) :
  n ≠ m -> store_lookup n (store_add m objs st) = store_lookup n st.
Proof.
  intros Hne. unfold store_lookup, store_add. induction st as [| [n' c] st IH]; [reflexivity |].
  rewrite fmap_cons. destruct (decide (named m (n', c))) as [Hm | Hm].
  - unfold named in Hm. cbn in Hm. subst n'.
    rewrite !filter_cons, !decide_False by (unfold named; cbn; congruence). exact IH.
  - rewrite !filter_cons. destruct (decide (named n (n', c))); [reflexivity | exact IH].
Qed.

(** X14. Whatever its outcome, [load_data_to_collection] changes the store
    only by adding objects at the end of the collection it was given: no
    collection is created, deleted or renamed, the collections of other
    names are untouched, and the schema and the earlier objects of the
    target stay. *)
Theorem load_only_appends (E : env) (client : nat) (coll : string) (w : world) :
  let st' := collections (final (SetupCollection.load_data_to_collection E client coll w)) in
  exists objs,
    st' = store_add coll objs (collections w)
    /\ st'.*1 = (collections w).*1
    /\ (forall n, n ≠ coll -> store_lookup n st' = store_lookup n (collections w))
    /\ (forall c, store_lookup coll (collections w) = Some c ->
                  store_lookup coll st'
                  = Some {| schema := schema c; objects := objects c ++ objs |}).
Proof.
  cbv zeta. destruct (appends_load E coll client w) as [objs Hobjs].
  exists objs. rewrite Hobjs. split; [reflexivity |]. split; [apply store_add_names |].
  split.
  - intros n Hne. by apply store_lookup_add_ne.
  - intros c Hc. by rewrite store_lookup_add, Hc.
Qed.

(** ** [main] from end to end *)

Lemma wait_frame E w b w1 l1 :
  SetupCollection.wait_for_weaviate E default_url default_timeout w = Result (Ret b) w1 l1 ->
  collections w1 = collections w /\ sessions w1 = sessions w
  /\ next_session w1 = next_session w.
Proof.
  unfold SetupCollection.wait_for_weaviate. intros Hwait.
  destruct (wait_for_weaviate_with_spec E "✅ Weaviate is ready!"
              "⏳ Waiting for Weaviate to start..." default_url default_timeout w)
    as (b' & n & t & Hrun & _).
  rewrite Hrun in Hwait. injection Hwait as _ <- _. done.
Qed.

(** X15. When the probe gives up, [main] ends there: the process exits
    with status 1 having logged only the banner, the probe and the
    not-ready message; no session was opened, and the store and the open
    sessions are untouched. *)
Theorem main_not_ready_touches_nothing (E : env) (w : world) :
  out (SetupCollection.wait_for_weaviate E default_url default_timeout (started w))
  = Ret false ->
  let r := python_run (SetupCollection.main E) w in
  out r = Ret 1%Z
  /\ log r = main_prelude
             ++ log (SetupCollection.wait_for_weaviate E default_url default_timeout (started w))
             ++ [Print not_ready_msg; ProcessExit 1]
  /\ acquired (log r) = []
  /\ collections (final r) = collections w
  /\ sessions (final r) = sessions w.
Proof.
  intros Hprobe. cbv zeta. unfold python_run. cbn [out final log].
  destruct (main_paths E w)
    as [w1 l1 Hwait | w1 l1 msg Hwait _ | w1 l1 ? ? ? ? Hwait _ _ _
        | w1 l1 ? ? ? ? ? ? ? Hwait _ _ _ _ | w1 l1 ? ? ? ? ? ? Hwait _ _ _ _
        | w1 l1 ? ? ? ? ? ? Hwait _ _ _ _ ];
    rewrite Hwait in Hprobe; try discriminate.
  cbn [out final log exit_code]. rewrite Hwait. cbn [log].
  destruct (wait_frame _ _ _ _ _ Hwait) as (Hstore & Hsessions & _).
  pose proof (inert_log _ _ _ _ _ (inert_wait_for_weaviate_with E _ _ _ _) Hwait) as Hfree.
  destruct (session_free_none _ Hfree) as [Hacq _].
  split; [reflexivity |]. split; [by rewrite <- !app_assoc |].
  split; [by rewrite !acquired_app, Hacq |]. done.
Qed.

Lemma main_not_ready_touches_nothing_witness :
  out (SetupCollection.wait_for_weaviate starting_env default_url default_timeout
         (started legacy_world)) = Ret false
  /\ collections (final (python_run (SetupCollection.main starting_env) legacy_world))
     = collections legacy_world.
Proof.
  assert (out (SetupCollection.wait_for_weaviate starting_env default_url default_timeout
                 (started legacy_world)) = Ret false) as Hprobe by (vm_compute; reflexivity).
  split; [exact Hprobe |].
  apply (main_not_ready_touches_nothing starting_env legacy_world Hprobe).
Defined.

Lemma store_count_add n m objs (st : store) :
  store_count n (store_add m objs st) = store_count n st.
Proof.
  unfold store_count, store_add. induction st as [| c st IH]; [reflexivity |].
  rewrite fmap_cons, !filter_cons.
  assert (named n (if decide (named m c) then (c.1, add_objects objs c.2) else c) <-> named n c)
    as Hsame by (destruct (decide (named m c)); reflexivity).
  destruct (decide (named n c)) as [Hc | Hc].
  - rewrite decide_True by (by apply Hsame). cbn. by rewrite IH.
  - rewrite decide_False by (by rewrite Hsame). exact IH.
Qed.

(** X16. When the process exits with status 0, the store holds exactly one
    collection named [bbc_collection]; it has the schema of the script and
    its objects are, in dataset order, the objects built from the records
    that the service accepted, whatever the collection held before. *)
Theorem main_success_fills_collection (E : env) (w : world) :
  let r := python_run (SetupCollection.main E) w in
  out r = Ret 0%Z ->
  exists data,
    dataset E = Holds data
    /\ store_lookup "bbc_collection" (collections (final r))
       = Some {| schema := SetupCollection.bbc_properties;
                 objects := accepted E (SetupCollection.data_object_of <$> data) |}
    /\ store_count "bbc_collection" (collections (final r)) = 1.
Proof.
  cbv zeta. unfold python_run. cbn [out final log]. intros Hcode.
  destruct (main_paths E w)
    as [w1 l1 Hwait | w1 l1 msg Hwait Hconnect
        | w1 l1 h e w3 l3 Hwait Hconnect Hh Hcreate
        | w1 l1 h coll w3 l3 e w4 l4 Hwait Hconnect Hh Hcreate Hload
        | w1 l1 h coll w3 l3 w4 l4 Hwait Hconnect Hh Hcreate Hload
        | w1 l1 h coll w3 l3 w4 l4 Hwait Hconnect Hh Hcreate Hload ];
    cbn [out final log exit_code] in *; try discriminate.
  assert (out (SetupCollection.create_bbc_collection E h (connected h w1)) = Ret coll)
    as Hret3 by (by rewrite Hcreate).
  rewrite (create_bbc_collection_ret _ _ _ _ Hret3) in Hcreate.
  injection Hcreate as <- <- _.
  match type of Hload with
  | SetupCollection.load_data_to_collection _ _ _ ?w3 = _ =>
      pose proof (load_ret_true E h "bbc_collection" w3) as Hloaded
  end.
  cbv zeta in Hloaded. rewrite Hload in Hloaded.
  destruct (Hloaded eq_refl) as (data & Hfile & _ & Hstore).
  cbn [final collections set_collections] in Hstore.
  exists data. split; [exact Hfile |].
  unfold closed. cbn [collections set_sessions]. rewrite Hstore.
  split.
  - rewrite store_lookup_add, replaced_lookup. reflexivity.
  - rewrite store_count_add. apply replaced_count.
Qed.

Lemma main_success_fills_collection_witness :
  out (python_run (SetupCollection.main (healthy_env [sample_record; mistyped_record]))
         legacy_world) = Ret 0%Z
  /\ store_count "bbc_collection"
       (collections (final (python_run
                              (SetupCollection.main (healthy_env [sample_record; mistyped_record]))
                              legacy_world))) = 1.
Proof.
  assert (out (python_run (SetupCollection.main (healthy_env [sample_record; mistyped_record]))
                 legacy_world) = Ret 0%Z) as Hcode by (vm_compute; reflexivity).
  split; [exact Hcode |].
  destruct (main_success_fills_collection _ _ Hcode) as (data & _ & _ & Hcount).
  exact Hcount.
Defined.

(** X17. A failed setup is still destructive: when the service is ready and
    accepts the connection and the schema operations but the dataset file is
    missing, the process exits with status 1 and [bbc_collection] has been
    replaced by a new, empty collection; what it held before is gone. *)
Theorem main_missing_dataset_still_replaces (E : env) (w : world) :
  out (SetupCollection.wait_for_weaviate E default_url default_timeout (started w))
  = Ret true ->
  connect_fault E = None ->
  (forall op, schema_fault E op = None) ->
  dataset E = Missing ->
  let r := python_run (SetupCollection.main E) w in
  out r = Ret 1%Z
  /\ store_lookup "bbc_collection" (collections (final r))
     = Some {| schema := SetupCollection.bbc_properties; objects := [] |}
  /\ object_count "bbc_collection" (collections (final r)) = 0.
Proof.
  intros Hprobe Hconnected Hschema Hmissing. cbv zeta. unfold python_run. cbn [out final log].
  destruct (main_paths E w)
    as [w1 l1 Hwait | w1 l1 msg Hwait Hconnect
        | w1 l1 h e w3 l3 Hwait Hconnect Hh Hcreate
        | w1 l1 h coll w3 l3 e w4 l4 Hwait Hconnect Hh Hcreate Hload
        | w1 l1 h coll w3 l3 w4 l4 Hwait Hconnect Hh Hcreate Hload
        | w1 l1 h coll w3 l3 w4 l4 Hwait Hconnect Hh Hcreate Hload ];
    rewrite Hwait in Hprobe; try discriminate; try congruence;
    rewrite (create_bbc_collection_ok E _ _ Hschema) in Hcreate; try discriminate;
    injection Hcreate as <- <- <-;
    rewrite (load_missing E _ _ _ Hmissing) in Hload; try discriminate.
  injection Hload as <- <-.
  cbn [out final log exit_code]. unfold closed.
  cbn [collections set_sessions set_collections].
  split; [reflexivity |]. split; [apply replaced_lookup |].
  unfold object_count. by rewrite replaced_lookup.
Qed.

Lemma main_missing_dataset_still_replaces_witness :
  dataset no_dataset_env = Missing
  /\ object_count "bbc_collection" (collections legacy_world) = 1
  /\ object_count "bbc_collection"
       (collections (final (python_run (SetupCollection.main no_dataset_env) legacy_world))) = 0.
Proof.
  split; [reflexivity |]. split; [reflexivity |].
  apply (main_missing_dataset_still_replaces no_dataset_env legacy_world).
  - vm_compute; reflexivity.
  - reflexivity.
  - reflexivity.
  - reflexivity.
Defined.

(** ** The module-level code of weaviate_server.py *)

Lemma server_wait_returns E w :
  exists b w1 l1,
    WeaviateServer.wait_for_weaviate E default_url default_timeout w = Result (Ret b) w1 l1
    /\ bindings w1 = bindings w /\ sessions w1 = sessions w
    /\ collections w1 = collections w /\ session_free l1.
Proof.
  unfold WeaviateServer.wait_for_weaviate.
  destruct (wait_for_weaviate_with_spec E "Weaviate is ready!" "Waiting for Weaviate to start..."
              default_url default_timeout w) as (b & n & t & Hrun & _).
  pose proof (inert_log _ _ _ _ _ (inert_wait_for_weaviate_with E _ _ _ _) Hrun) as Hfree.
  rewrite Hrun. eexists _, _, _. split; [reflexivity |]. done.
Qed.

(** X18. When the probe returns [True] and the connection is made, importing
    [weaviate_server.py] succeeds: the new session is bound to the
    module-level name [client], it is open when the module body ends, and
    the body has closed nothing. *)
Theorem module_body_binds_open_client (E : env) (w : world) :
  out (WeaviateServer.wait_for_weaviate E default_url default_timeout w) = Ret true ->
  connect_fault E = None ->
  let r1 := WeaviateServer.wait_for_weaviate E default_url default_timeout w in
  let r := WeaviateServer.module_body E w in
  let h := next_session (final r1) in
  out r = Ret tt
  /\ bindings (final r) !! "client" = Some h
  /\ h ∈ sessions (final r)
  /\ log r = log r1 ++ [Connect h; Print "Connected to Weaviate via Docker"]
  /\ released (log r) = [].
Proof.
  intros Hready Hconnect. cbv zeta.
  destruct (server_wait_returns E w) as (b & w1 & l1 & Hwait & _ & _ & _ & Hfree).
  rewrite Hwait in Hready |- *. injection Hready as ->. cbn [final log].
  unfold WeaviateServer.module_body.
  erewrite try_except_ret.
  2: { rewrite (bind_step _ _ _ _ _ _ Hwait). cbv beta iota.
       rewrite run_bind, connect_to_local_run, Hconnect. run. reflexivity. }
  cbn [out final log bindings sessions set_bindings set_sessions].
  split; [reflexivity |]. split; [apply lookup_insert_eq |]. split; [left |].
  split; [reflexivity |].
  destruct (session_free_none _ Hfree) as [_ Hrel].
  by rewrite released_app, Hrel.
Qed.

Lemma module_body_binds_open_client_witness :
  out (WeaviateServer.wait_for_weaviate (healthy_env []) default_url default_timeout fresh_world)
  = Ret true
  /\ bindings (final (WeaviateServer.module_body (healthy_env []) fresh_world)) !! "client"
     = Some 0.
Proof.
  assert (out (WeaviateServer.wait_for_weaviate (healthy_env []) default_url default_timeout
                 fresh_world) = Ret true) as Hready by (vm_compute; reflexivity).
  split; [exact Hready |].
  pose proof (module_body_binds_open_client (healthy_env []) fresh_world Hready eq_refl) as H.
  cbv zeta in H. destruct H as (_ & Hclient & _). rewrite Hclient.
  vm_compute. reflexivity.
Defined.

(** X19. Importing [weaviate_server.py] fails in two cases only, and the
    exception is raised again after the two failure messages: the probe gave
    up (the exception says that Weaviate is not ready), or the connection
    was refused (the exception is the one of the connection).  In both
    cases no session was opened and no name was bound. *)
Theorem module_body_failure_reraises (E : env) (w : world) (e : exn) :
  out (WeaviateServer.module_body E w) = Raise e ->
  let r1 := WeaviateServer.wait_for_weaviate E default_url default_timeout w in
  let r := WeaviateServer.module_body E w in
  ((out r1 = Ret false /\ e = not_ready_error)
   \/ (out r1 = Ret true /\ exists msg, connect_fault E = Some msg /\ e = Exception msg))
  /\ log r = log r1 ++ import_failed e
  /\ final r = final r1
  /\ bindings (final r) = bindings w
  /\ sessions (final r) = sessions w
  /\ acquired (log r) = [].
Proof.
  intros Hraise. cbv zeta.
  destruct (server_wait_returns E w) as (b & w1 & l1 & Hwait & Hbind & Hsess & _ & Hfree).
  destruct (session_free_none _ Hfree) as [Hacq _].
  revert Hraise. rewrite Hwait. cbn [out final log].
  unfold WeaviateServer.module_body.
  destruct b.
  - destruct (connect_fault E) as [msg |] eqn:Hconnect.
    + erewrite try_except_caught;
        [| rewrite (bind_step _ _ _ _ _ _ Hwait); cbv beta iota;
           rewrite run_bind, connect_to_local_run, Hconnect; run; reflexivity
         | reflexivity].
      run. intros [= <-].
      split; [right; split; [reflexivity | by exists msg] |].
      split; [by rewrite app_nil_r |]. split; [reflexivity |].
      split; [exact Hbind |]. split; [exact Hsess |].
      by rewrite app_nil_r, acquired_app, Hacq.
    + erewrite try_except_ret.
      2: { rewrite (bind_step _ _ _ _ _ _ Hwait). cbv beta iota.
           rewrite run_bind, connect_to_local_run, Hconnect. run. reflexivity. }
      discriminate.
  - erewrite try_except_caught;
      [| rewrite (bind_step _ _ _ _ _ _ Hwait); cbv beta iota; run; reflexivity
       | reflexivity].
    run. intros [= <-].
    split; [left; done |].
    split; [by rewrite app_nil_r |]. split; [reflexivity |].
    split; [exact Hbind |]. split; [exact Hsess |].
    by rewrite app_nil_r, acquired_app, Hacq.
Qed.

Lemma module_body_failure_reraises_witness :
  out (WeaviateServer.module_body starting_env fresh_world) = Raise not_ready_error
  /\ bindings (final (WeaviateServer.module_body starting_env fresh_world))
     = bindings fresh_world.
Proof.
  assert (out (WeaviateServer.module_body starting_env fresh_world) = Raise not_ready_error)
    as Hraise by (vm_compute; reflexivity).
  split; [exact Hraise |].
  pose proof (module_body_failure_reraises starting_env fresh_world not_ready_error Hraise) as H.
  cbv zeta in H. destruct H as (_ & _ & _ & Hbind & _). exact Hbind.
Defined.

(** ** The patched [Popen] *)

Lemma silenced_lookup kwargs k :
  silenced kwargs !! k
  = if decide (k = "stdout" \/ k = "stderr") then Some DEVNULL else kwargs !! k.
Proof.
  unfold silenced. destruct (decide (k = "stderr")) as [-> | Herr].
  - rewrite lookup_insert_eq, decide_True by (by right). reflexivity.
  - rewrite lookup_insert_ne by done. destruct (decide (k = "stdout")) as [-> | Hout].
    + rewrite lookup_insert_eq, decide_True by (by left). reflexivity.
    + rewrite lookup_insert_ne by done. rewrite decide_False by tauto. reflexivity.
Qed.


Lemma suppress_run {A} (body : M A) (w : world) :
  WeaviateServer.suppress_subprocess_output body w
  = let inside := body (set_Popen (WeaviateServer.patched_popen (Popen w)) w) in
    Result (out inside) (set_Popen (Popen w) (final inside)) (log inside).
Proof.
  unfold WeaviateServer.suppress_subprocess_output.
  cbv [mbind M_bind get_world modify try_finally prepend out final log].
  destruct (body _) as [o w' l]; destruct o; cbn; by rewrite ?app_nil_r.
Qed.

(** X21. The contexts nest: inside two nested [suppress_subprocess_output]
    blocks the body sees the original function patched twice, which still
    reaches the original with both streams sent to [DEVNULL]; the outcome
    and the log are those of the body, and on leaving both blocks
    [subprocess.Popen] is the function bound before the outer one. *)
Theorem suppress_subprocess_output_nested {A} (body : M A) (w : world) :
  let twice := WeaviateServer.patched_popen (WeaviateServer.patched_popen (Popen w)) in
  let inside := body (set_Popen twice w) in
  let r := WeaviateServer.suppress_subprocess_output
             (WeaviateServer.suppress_subprocess_output body) w in
  out r = out inside
  /\ log r = log inside
  /\ Popen (final r) = Popen w
  /\ forall args kwargs, twice args kwargs = Popen w args (silenced kwargs).
Proof.
  cbv zeta. rewrite suppress_run. cbv zeta. rewrite suppress_run. cbv zeta.
  cbn [out final log Popen set_Popen].
  assert (forall f w0, set_Popen f (set_Popen (WeaviateServer.patched_popen (Popen w)) w0)
                       = set_Popen f w0) as Hset by (by intros f []).
  rewrite Hset. split; [reflexivity |]. split; [reflexivity |]. split; [reflexivity |].
  intros args kwargs. unfold WeaviateServer.patched_popen.
  fold (silenced kwargs). fold (silenced (silenced kwargs)).
  f_equal. apply map_eq. intros k. rewrite !silenced_lookup. by destruct (decide _).
Qed.
